(** * SAU / faynoSync: release catalog handlers

    A shallow embedding of the request handlers of the update server
    (package [create], [info], [catalog], [delete]) and of the helpers of
    package [utils] they call, with the external services (object store,
    key-value cache, metadata store, logger, HTTP response writer) as
    explicit state.  Go strings are byte strings ([string]); Go maps with
    string keys are [gmap string _]; [int] values are [Z]. *)

From stdpp Require Import gmap strings list fin_maps.
From Stdlib Require Import ZArith Lia Ascii.

Set Default Proof Using "Type".

(** ** Go's [strings] package: the functions the handlers use *)

Module GoStrings.

(** [strings.HasPrefix s prefix] *)
Fixpoint HasPrefix (s prefix : string) {struct prefix} : bool :=
  match prefix with
  | "" => true
  | String a prefix' =>
      match s with
      | "" => false
      | String b s' => if decide (a = b) then HasPrefix s' prefix' else false
      end
  end.

(** [strings.Index s substr]: byte index of the first instance of
    [substr] in [s], or -1. *)
Fixpoint IndexFrom (i : Z) (s substr : string) : Z :=
  if HasPrefix s substr then i
  else match s with
       | "" => (-1)%Z
       | String _ s' => IndexFrom (i + 1)%Z s' substr
       end.

Definition Index (s substr : string) : Z := IndexFrom 0 s substr.

(** The slice expression [s[i:]]. *)
Fixpoint skip (n : nat) (s : string) : string :=
  match n, s with
  | O, _ => s
  | S n', String _ s' => skip n' s'
  | S _, "" => ""
  end.

Definition slice_from (s : string) (i : Z) : string := skip (Z.to_nat i) s.

(** [strings.TrimPrefix s prefix] *)
Definition TrimPrefix (s prefix : string) : string :=
  if HasPrefix s prefix then skip (String.length prefix) s else s.

(** Occurrence of a byte in a string. *)
Fixpoint occurs (c : ascii) (s : string) : bool :=
  match s with
  | "" => false
  | String b s' => if decide (c = b) then true else occurs c s'
  end.

End GoStrings.

(** ** Values, errors and the model types *)

(** An [error] is represented by its [Error()] text. *)
Definition Error := string.

Inductive Result (A : Type) : Type :=
| Ok (a : A)
| Err (e : Error).
Arguments Ok {A} a.
Arguments Err {A} e.

(** [primitive.ObjectID], seen through [Hex()]. *)
Record ObjectID := mkObjectID { Hex : string }.

(** [model.Artifact], [model.Changelog], [model.SpecificApp]: the fields
    the handlers and the tests read. *)
Record Artifact := mkArtifact {
  Link : string;
  Platform : string;
  Arch : string;
  Package : string
}.

Record Changelog := mkChangelog {
  cl_Version : string;
  Changes : string;
  Date : string
}.

Record SpecificApp := mkSpecificApp {
  ID : ObjectID;
  AppName : string;
  Version : string;
  Channel : string;
  Published : bool;
  Critical : bool;
  Artifacts : list Artifact;
  app_Changelog : list Changelog
}.

(** [interface{}]: the dynamic values that occur in parameter maps, in
    repository results and in JSON bodies. *)
Inductive Any : Type :=
| ANil
| AStr (s : string)
| ABool (b : bool)
| AInt (n : Z)
| ASpecificApp (a : SpecificApp)
| AApps (l : list SpecificApp).

(** [gin.H] and [map[string]interface{}] *)
Abbreviation H := (gmap string Any).

(** The type assertion [v.(string)] on a map entry, with the zero value
    when it fails. *)
Definition as_string (v : option Any) : string :=
  match v with
  | Some (AStr s) => s
  | _ => ""
  end.

(** [viper.Viper]: the configuration, read with [GetString]. *)
Abbreviation Viper := (gmap string string).

Definition GetString (env : Viper) (k : string) : string := default "" (env !! k).

(** ** The external services *)

(** The object store.  Objects live under (bucket, key); a body is [None]
    when the handler passes a nil reader.  The two fault fields say which
    requests the service rejects, and with what error. *)
Record S3 := mkS3 {
  s3_objects : gmap (string * string) (option string);
  s3_put_fault : string → option Error;
  s3_delete_fault : string → option Error
}.

Definition PutObject (bucket key : string) (body : option string) (s : S3)
  : option Error * S3 :=
  match s3_put_fault s key with
  | Some e => (Some e, s)
  | None => (None, mkS3 (<[(bucket, key) := body]> (s3_objects s))
                        (s3_put_fault s) (s3_delete_fault s))
  end.

Definition DeleteObject (bucket key : string) (s : S3) : option Error * S3 :=
  match s3_delete_fault s key with
  | Some e => (Some e, s)
  | None => (None, mkS3 (delete (bucket, key) (s3_objects s))
                        (s3_put_fault s) (s3_delete_fault s))
  end.

(** The key-value cache.  [rdb_match pattern key] is the server's glob
    matcher; the fault fields say whether KEYS fails and which DEL fail. *)
Record Redis := mkRedis {
  rdb_data : gmap string string;
  rdb_match : string → string → bool;
  rdb_keys_fault : option Error;
  rdb_del_fault : string → option Error
}.

Definition rdb_Keys (pattern : string) (r : Redis) : Result (list string) :=
  match rdb_keys_fault r with
  | Some e => Err e
  | None => Ok (filter (λ k, rdb_match r pattern k = true)
                       (elements (dom (rdb_data r))))
  end.

Definition rdb_Del (key : string) (r : Redis) : option Error * Redis :=
  match rdb_del_fault r key with
  | Some e => (Some e, r)
  | None => (None, mkRedis (delete key (rdb_data r)) (rdb_match r)
                           (rdb_keys_fault r) (rdb_del_fault r))
  end.

(** The metadata store: the four dimension collections, each record an
    identifier and a name, and the releases. *)
Record Mongo := mkMongo {
  db_apps : list (ObjectID * string);
  db_channels : list (ObjectID * string);
  db_platforms : list (ObjectID * string);
  db_archs : list (ObjectID * string);
  db_releases : list SpecificApp;
  db_next_id : N;
  db_today : string
}.

(** Log lines ([logrus]) and standard output. *)
Inductive Sink := DebugLevel | ErrorLevel | Stdout.

(** What one request sees and changes: the stores, the log, and the
    sequence of [c.JSON] calls made on the gin context. *)
Record World := mkWorld {
  w_db : Mongo;
  w_s3 : S3;
  w_rdb : option Redis;
  w_written : list (Z * H);
  w_log : list (Sink * string)
}.

Definition set_db (d : Mongo) (w : World) : World :=
  mkWorld d (w_s3 w) (w_rdb w) (w_written w) (w_log w).
Definition set_s3 (s : S3) (w : World) : World :=
  mkWorld (w_db w) s (w_rdb w) (w_written w) (w_log w).
Definition set_rdb (r : option Redis) (w : World) : World :=
  mkWorld (w_db w) (w_s3 w) r (w_written w) (w_log w).

(** [c.JSON(code, body)] *)
Definition c_JSON (code : Z) (body : H) (w : World) : World :=
  mkWorld (w_db w) (w_s3 w) (w_rdb w) (w_written w ++ [(code, body)]) (w_log w).

Definition log_to (k : Sink) (msg : string) (w : World) : World :=
  mkWorld (w_db w) (w_s3 w) (w_rdb w) (w_written w) (w_log w ++ [(k, msg)]).

Definition logrus_Error : string → World → World := log_to ErrorLevel.
Definition logrus_Debug : string → World → World := log_to DebugLevel.

Definition StatusOK : Z := 200.
Definition StatusBadRequest : Z := 400.
Definition StatusInternalServerError : Z := 500.

(** [gin.H{"error": msg}] *)
Definition error_body (msg : string) : H := {[ "error" := AStr msg ]}.

(** ** Package [utils]: the object-store helpers *)

Module utils.
Import GoStrings.

(** [mime/multipart.FileHeader]: the client's file name and what
    [Open] yields. *)
Record FileHeader := mkFileHeader {
  Filename : string;
  Open : Result string
}.

(** The locals of [UploadToS3], each as a function of what it is
    computed from. *)
Definition extension (baseFileName : string) : string :=
  let dotIndex := Index baseFileName "." in
  if (-1 <? dotIndex)%Z then slice_from baseFileName dotIndex else "".

Definition newFileName (appName version ext : string) : string :=
  appName +:+ "-" +:+ version +:+ ext.

Definition link (env : Viper) (appName newFileName : string) : string :=
  GetString env "S3_ENDPOINT" +:+ "/" +:+ appName +:+ "/" +:+ newFileName.

Definition s3Key (appName newFileName : string) : string :=
  appName +:+ "/" +:+ newFileName.

Definition UploadToS3 (appName version : string) (file : FileHeader)
    (env : Viper) (w : World) : string * World :=
  let ext := extension (Filename file) in
  let name := newFileName appName version ext in
  let lnk := link env appName name in
  let '(fileReader, w) :=
    match Open file with
    | Ok r => (Some r, w)
    | Err e =>
        (None, c_JSON StatusInternalServerError
                 (error_body "failed to open file for reading")
                 (logrus_Error e w))
    end in
  let key := s3Key appName name in
  let '(err, s3') :=
    PutObject (GetString env "S3_BUCKET_NAME") key fileReader (w_s3 w) in
  let w := set_s3 s3' w in
  let w :=
    match err with
    | Some e => c_JSON StatusInternalServerError
                  (error_body "failed to upload file to S3")
                  (logrus_Error e w)
    | None => w
    end in
  (lnk, w).

(** The character classes of the two validating expressions
    [^[a-zA-Z0-9]+$] and [^[0-9.-]+$]. *)
Definition byte_in (lo hi : ascii) (c : ascii) : bool :=
  (N.leb (N_of_ascii lo) (N_of_ascii c)) && (N.leb (N_of_ascii c) (N_of_ascii hi)).

Definition is_digit (c : ascii) : bool := byte_in "0" "9" c.

Definition is_alnum (c : ascii) : bool :=
  byte_in "a" "z" c || byte_in "A" "Z" c || is_digit c.

Definition is_version_byte (c : ascii) : bool :=
  is_digit c || bool_decide (c = "."%char) || bool_decide (c = "-"%char).

(** A match of [^[class]+$]: a non-empty input, every byte in the class. *)
Fixpoint all_bytes (p : ascii → bool) (s : string) : bool :=
  match s with
  | "" => true
  | String c s' => p c && all_bytes p s'
  end.

Definition matches_plus (p : ascii → bool) (input : string) : bool :=
  match input with
  | "" => false
  | _ => all_bytes p input
  end.

Definition IsValidInputAppName (input : string) : bool :=
  matches_plus is_alnum input.

Definition IsValidInputVersion (input : string) : bool :=
  matches_plus is_version_byte input.

Definition DeleteFromS3 (objectKey : string) (env : Viper) (w : World) : World :=
  let bucket := GetString env "S3_BUCKET_NAME" in
  let '(err, s3') := DeleteObject bucket objectKey (w_s3 w) in
  let w := set_s3 s3' w in
  let w :=
    match err with
    | Some e => c_JSON StatusInternalServerError
                  (error_body "failed to delete file from S3")
                  (logrus_Error e w)
    | None => w
    end in
  log_to Stdout ("Object '" +:+ objectKey +:+ "' deleted from bucket '"
                 +:+ bucket +:+ "'" +:+ String "010" "") w.

End utils.

(** ** The request and the repository interface *)

(** The multipart form of a request: its [File] map. *)
Record MultipartForm := mkForm {
  File : gmap string (list utils.FileHeader)
}.

(** [gin.Context], as far as the handlers read it: the query string, the
    decoded JSON of the form field [data], and what [c.MultipartForm()]
    yields. *)
Record Request := mkRequest {
  req_query : gmap string string;
  req_data : option H;
  req_form : Result MultipartForm
}.

(** [c.Query(key)] *)
Definition Query (c : Request) (key : string) : string :=
  default "" (req_query c !! key).

(** What [CheckLatestVersion] returns, as [FindLatestVersion] reads it. *)
Record CheckResult := mkCheckResult {
  Found : bool;
  cr_Artifacts : list Artifact
}.

(** A nil slice of apps is JSON [null]. *)
Definition apps_value (l : option (list SpecificApp)) : Any :=
  match l with
  | None => ANil
  | Some l => AApps l
  end.

(** [db.AppRepository]: the methods the handlers call.  A method that
    writes returns the new store; a Go result pair [(v, err)] that the
    caller reads only when [err] is nil is a [Result]. *)
Record AppRepository := mkRepository {
  Upload : H → string → string → Mongo → Result Any * Mongo;
  CheckLatestVersion :
    string → string → string → string → string → Mongo → Result CheckResult;
  repo_GetAppByName : string → Mongo → Result (option (list SpecificApp));
  repo_Get : Mongo → Result (option (list SpecificApp));
  repo_DeleteApp : ObjectID → Mongo → (list string * Any * option Error) * Mongo;
  repo_DeleteChannel : ObjectID → Mongo → Result Any * Mongo;
  repo_DeletePlatform : ObjectID → Mongo → Result Any * Mongo;
  repo_DeleteArch : ObjectID → Mongo → Result Any * Mongo
}.

(** ** The handlers *)

Section Handlers.

(** The collaborators whose bodies are outside the handler packages:
    [utils.ValidateParams], which reads the request and the metadata
    store; the three-result [utils.UploadToS3] that [UploadApp] calls
    (parameter map and file in; link, extension and error out), which
    acts on the object store; [utils.GetBoolParam]; the repository behind
    the [db.AppRepository] interface; [primitive.ObjectIDFromHex]; and the
    configuration. *)
Variable ValidateParams : Request → Mongo → Result H.
Variable UploadToS3 : H → utils.FileHeader → S3 → Result (string * string) * S3.
Variable GetBoolParam : option Any → bool.
Variable repository : AppRepository.
Variable ObjectIDFromHex : string → Result ObjectID.
Variable env : Viper.

(** *** Package [create] *)

(** The loop [for _, key := range keys] of [InvalidateCache]. *)
Fixpoint invalidate_keys (keys : list string) (rdb : Redis) (w : World)
  : Redis * World :=
  match keys with
  | [] => (rdb, w)
  | key :: keys' =>
      let w := logrus_Debug ("Invalidating key: " +:+ key) w in
      let '(err, rdb) := rdb_Del key rdb in
      let w :=
        match err with
        | Some e => logrus_Error ("Failed to invalidate key: " +:+ key
                                  +:+ ", error: " +:+ e) w
        | None => w
        end in
      invalidate_keys keys' rdb w
  end.

Definition cache_pattern (appName channel : string) : string :=
  "app_name=" +:+ appName +:+ "&version=*&channel=" +:+ channel
  +:+ "&platform=*&arch=*".

Definition InvalidateCache (params : H) (rdb : Redis) (w : World)
  : option Error * Redis * World :=
  let appName := as_string (params !! "app_name") in
  let channel := as_string (params !! "channel") in
  let pattern := cache_pattern appName channel in
  let w := logrus_Debug ("Redis pattern " +:+ pattern
                         +:+ " will be invalidated.") w in
  match rdb_Keys pattern rdb with
  | Err e => (Some ("failed to fetch keys for invalidation: " +:+ e), rdb, w)
  | Ok keys =>
      if bool_decide (length keys = 0)
      then (None, rdb, logrus_Debug "No keys found to invalidate." w)
      else let '(rdb, w) := invalidate_keys keys rdb w in (None, rdb, w)
  end.

(** The first loop of [UploadApp]: every file goes to the object store.
    [inl] is the early [return]. *)
Fixpoint upload_files (ctxQueryMap : H) (files : list utils.FileHeader)
    (links extensions : list string) (w : World)
  : World + (list string * list string * World) :=
  match files with
  | [] => inr (links, extensions, w)
  | file :: files' =>
      let '(r, s3') := UploadToS3 ctxQueryMap file (w_s3 w) in
      let w := set_s3 s3' w in
      match r with
      | Err e =>
          inl (c_JSON StatusInternalServerError
                 (error_body "failed to upload file to S3")
                 (logrus_Error e w))
      | Ok (link, ext) =>
          upload_files ctxQueryMap files' (links ++ [link]) (extensions ++ [ext]) w
      end
  end.

(** The second loop: [for i, link := range links], from index [i] on. *)
Fixpoint store_links (ctxQueryMap : H) (i : nat) (links extensions : list string)
    (results : list Any) (w : World) : World + (list Any * World) :=
  match links with
  | [] => inr (results, w)
  | link :: links' =>
      let '(r, db') :=
        Upload repository ctxQueryMap link (default "" (extensions !! i)) (w_db w) in
      let w := set_db db' w in
      match r with
      | Err e =>
          inl (c_JSON StatusInternalServerError (error_body e) (logrus_Error e w))
      | Ok result =>
          store_links ctxQueryMap (S i) links' extensions (results ++ [result]) w
      end
  end.

(** The block [if performanceMode && rdb != nil]. *)
Definition invalidate_if_published (ctxQueryMap : H) (performanceMode : bool)
    (w : World) : World :=
  match performanceMode, w_rdb w with
  | true, Some rdb =>
      let publish := GetBoolParam (ctxQueryMap !! "publish") in
      let w := logrus_Debug
                 ("Uploaded app has publish: "
                  +:+ (if publish then "true" else "false")
                  +:+ ", invalidation of redis cache is starting.") w in
      if publish then
        let '(err, rdb, w) := InvalidateCache ctxQueryMap rdb w in
        let w := set_rdb (Some rdb) w in
        match err with
        | Some e => logrus_Error ("Error invalidating cache:" +:+ e) w
        | None => w
        end
      else w
  | _, _ => w
  end.

(** [UploadApp].  The request dump at entry and the detached chat
    notification after the 200 response write neither a store nor the
    response; they are left out. *)
Definition UploadApp (c : Request) (performanceMode : bool) (w : World) : World :=
  match ValidateParams c (w_db w) with
  | Err e => c_JSON StatusBadRequest (error_body e) w
  | Ok ctxQueryMap =>
      match req_form c with
      | Err _ =>
          c_JSON StatusBadRequest (error_body "multipart form data is required") w
      | Ok form =>
          let files := default [] (File form !! "file") in
          match upload_files ctxQueryMap files [] [] w with
          | inl w => w
          | inr (links, extensions, w) =>
              match store_links ctxQueryMap 0 links extensions [] w with
              | inl w => w
              | inr (results, w) =>
                  let w := invalidate_if_published ctxQueryMap performanceMode w in
                  match results with
                  | [] =>
                      c_JSON StatusInternalServerError
                        (error_body "no results found. Please check your files.") w
                  | ASpecificApp appData :: _ =>
                      c_JSON StatusOK
                        {[ "uploadResult" := AStr (Hex (ID appData)) ]} w
                  | _ :: _ =>
                      c_JSON StatusInternalServerError
                        (error_body "Invalid result type") w
                  end
              end
          end
      end
  end.

(** *** Package [info] *)

(** The loop over [checkResult.Artifacts] that fills the response. *)
Definition add_update_url (response : H) (artifact : Artifact) : H :=
  if negb (bool_decide (Package artifact = ""))
     && negb (bool_decide (Link artifact = ""))
  then <[ "update_url_" +:+ GoStrings.TrimPrefix (Package artifact) "."
          := AStr (Link artifact) ]> response
  else response.

Definition FindLatestVersion (c : Request) (w : World) : World :=
  match ValidateParams c (w_db w) with
  | Err e => c_JSON StatusBadRequest (error_body e) w
  | Ok _ =>
      match CheckLatestVersion repository (Query c "app_name") (Query c "version")
              (Query c "channel") (Query c "platform") (Query c "arch") (w_db w) with
      | Err e =>
          c_JSON StatusInternalServerError (error_body e) (logrus_Error e w)
      | Ok checkResult =>
          let err : option Error := None in
          if negb (Found checkResult) then
            if bool_decide (length (cr_Artifacts checkResult) = 0) then
              c_JSON StatusOK
                (<[ "update_available" := ABool false ]>
                   {[ "error" := AStr "Not found" ]}) w
            else
              let errorMsg :=
                match err with
                | Some e => e
                | None => "Not found"
                end in
              c_JSON StatusOK
                (<[ "update_available" := ABool false ]>
                   {[ "error" := AStr errorMsg ]}) w
          else
            let response :=
              foldl add_update_url {[ "update_available" := ABool true ]}
                (cr_Artifacts checkResult) in
            c_JSON StatusOK response w
      end
  end.

(** *** Package [catalog] *)

Definition GetAppByName (c : Request) (w : World) : World :=
  let appName := Query c "app_name" in
  match repo_GetAppByName repository appName (w_db w) with
  | Err e => c_JSON StatusOK {[ "apps" := apps_value None ]} (logrus_Error e w)
  | Ok result => c_JSON StatusOK {[ "apps" := apps_value result ]} w
  end.

Definition GetAllApps (c : Request) (w : World) : World :=
  match repo_Get repository (w_db w) with
  | Err e => c_JSON StatusOK {[ "apps" := apps_value None ]} (logrus_Error e w)
  | Ok result => c_JSON StatusOK {[ "apps" := apps_value result ]} w
  end.

(** *** Package [delete] *)

Definition DeleteApp (c : Request) (w : World) : World :=
  match ObjectIDFromHex (Query c "id") with
  | Err e => c_JSON StatusBadRequest (error_body e) w
  | Ok objID =>
      let '((links, result, err), db') := repo_DeleteApp repository objID (w_db w) in
      let w := set_db db' w in
      let w :=
        match err with
        | Some e => logrus_Error e w
        | None => w
        end in
      let w :=
        foldl (λ w link,
                 let subLink := GoStrings.TrimPrefix link (GetString env "S3_ENDPOINT") in
                 utils.DeleteFromS3 subLink env w) w links in
      c_JSON StatusOK {[ "deleteAppResult.DeletedCount" := result ]} w
  end.

(** [cases.Title] on the three item types that reach it. *)
Definition capitalized (itemType : string) : string :=
  if bool_decide (itemType = "channel") then "Channel"
  else if bool_decide (itemType = "platform") then "Platform"
  else if bool_decide (itemType = "arch") then "Arch"
  else itemType.

Definition deleteEntity (c : Request) (itemType : string) (w : World) : World :=
  match ObjectIDFromHex (Query c "id") with
  | Err e => c_JSON StatusBadRequest (error_body e) w
  | Ok objID =>
      let call :=
        if bool_decide (itemType = "channel") then Some (repo_DeleteChannel repository)
        else if bool_decide (itemType = "platform") then Some (repo_DeletePlatform repository)
        else if bool_decide (itemType = "arch") then Some (repo_DeleteArch repository)
        else None in
      match call with
      | None => c_JSON StatusBadRequest (error_body "Invalid item type") w
      | Some delete_item =>
          let '(r, db') := delete_item objID (w_db w) in
          let w := set_db db' w in
          match r with
          | Err e =>
              c_JSON StatusInternalServerError
                (error_body ("failed to delete " +:+ itemType)) (logrus_Error e w)
          | Ok result =>
              c_JSON StatusOK
                {[ "delete" +:+ capitalized itemType +:+ "Result.DeletedCount"
                   := result ]} w
          end
      end
  end.

Definition DeleteChannel (c : Request) : World → World := deleteEntity c "channel".
Definition DeleteArch (c : Request) : World → World := deleteEntity c "arch".
Definition DeletePlatform (c : Request) : World → World := deleteEntity c "platform".

End Handlers.

(** *** Package [create]: the text of the notification *)

(** [strings.Join(elems, sep)] *)
Fixpoint Join (elems : list string) (sep : string) : string :=
  match elems with
  | [] => ""
  | [e] => e
  | e :: rest => e +:+ sep +:+ Join rest sep
  end.

(** The line [formatArtifacts] prints for an artifact. *)
Definition artifact_line (artifact : Artifact) : string :=
  "🔗 Link " +:+ GoStrings.TrimPrefix (Package artifact) "." +:+ ": "
  +:+ Link artifact +:+ String "010" "".

(** The key under which [formatArtifacts] remembers an artifact. *)
Definition artifact_seen_key (artifact : Artifact) : string :=
  Link artifact +:+ "|" +:+ Package artifact.

(** The inner loop of [formatArtifacts], over the artifacts of one
    result: [uniqueArtifacts] and [artifacts] in, both out. *)
Fixpoint collect_artifacts (l : list Artifact)
    (uniqueArtifacts : gset string) (artifacts : list string)
  : gset string * list string :=
  match l with
  | [] => (uniqueArtifacts, artifacts)
  | artifact :: l' =>
      let key := artifact_seen_key artifact in
      if bool_decide (key ∈ uniqueArtifacts)
      then collect_artifacts l' uniqueArtifacts artifacts
      else collect_artifacts l' ({[ key ]} ∪ uniqueArtifacts)
             (artifacts ++ [artifact_line artifact])
  end.

(** The outer loop, over the results. *)
Fixpoint collect_results (results : list Any)
    (uniqueArtifacts : gset string) (artifacts : list string)
  : gset string * list string :=
  match results with
  | [] => (uniqueArtifacts, artifacts)
  | ASpecificApp appData :: results' =>
      let '(uniqueArtifacts, artifacts) :=
        collect_artifacts (Artifacts appData) uniqueArtifacts artifacts in
      collect_results results' uniqueArtifacts artifacts
  | _ :: results' => collect_results results' uniqueArtifacts artifacts
  end.

Definition formatArtifacts (results : list Any) : string :=
  if bool_decide (length results = 0) then "No artifacts available."
  else Join (collect_results results ∅ []).2 (String "010" "").

Definition changelog_line (changelog : Changelog) : string :=
  "📝 " +:+ Changes changelog +:+ String "010" "".

Definition formatChangelog (results : list Any) : string :=
  match results with
  | [] => "No changelog available."
  | ASpecificApp appData :: _ =>
      Join (changelog_line <$> app_Changelog appData) (String "010" "")
  | _ :: _ => Join [] (String "010" "")
  end.

(** ** The version scheme *)

Module version.

(** [strings.Split s sep] for a one-byte separator. *)
Fixpoint split (sep : ascii) (s : string) : list string :=
  match s with
  | "" => [""]
  | String c s' =>
      let rest := split sep s' in
      if decide (c = sep) then "" :: rest
      else match rest with
           | t :: ts => String c t :: ts
           | [] => [String c ""]
           end
  end.

Fixpoint decimal_from (acc : N) (s : string) : option N :=
  match s with
  | "" => Some acc
  | String c s' =>
      if utils.is_digit c
      then decimal_from (10 * acc + (N_of_ascii c - 48))%N s'
      else None
  end.

(** A token is a non-negative decimal integer. *)
Definition component (t : string) : option N :=
  match t with
  | "" => None
  | _ => decimal_from 0 t
  end.

(** Modelled from the spec: the version parser of section 4.1, which is
    not under src/.  The input is split on [.] into exactly four tokens,
    each a non-negative decimal integer. *)
Definition parse (s : string) : option (N * N * N * N) :=
  match split "." s with
  | [a; b; c; d] =>
      a ← component a; b ← component b; c ← component c; d ← component d;
      Some (a, b, c, d)
  | _ => None
  end.

(** Modelled from the spec: the comparator of section 4.1, lexicographic
    on the four components. *)
Definition compare (v w : N * N * N * N) : comparison :=
  let '(a1, b1, c1, d1) := v in
  let '(a2, b2, c2, d2) := w in
  match (a1 ?= a2)%N with
  | Eq => match (b1 ?= b2)%N with
          | Eq => match (c1 ?= c2)%N with
                  | Eq => (d1 ?= d2)%N
                  | o => o
                  end
          | o => o
          end
  | o => o
  end.

End version.

(** ** The parameter validator *)

(** The three gated dimensions. *)
Inductive Dimension := DChannel | DPlatform | DArch.

Definition dim_key (d : Dimension) : string :=
  match d with
  | DChannel => "channel"
  | DPlatform => "platform"
  | DArch => "arch"
  end.

Definition dim_records (db : Mongo) (d : Dimension) : list (ObjectID * string) :=
  match d with
  | DChannel => db_channels db
  | DPlatform => db_platforms db
  | DArch => db_archs db
  end.

Definition dim_names (db : Mongo) (d : Dimension) : list string :=
  snd <$> dim_records db d.

(** A parameter is present when the map holds a non-empty string for it. *)
Definition param (params : H) (key : string) : option string :=
  match params !! key with
  | Some (AStr s) => if bool_decide (s = "") then None else Some s
  | _ => None
  end.

(** Modelled from the spec: the error of a dimension that has records and
    is left out of an upload, raised by [utils.ValidateParams] (not under
    src/), in the wording of scenario S5 and of the tests. *)
Definition dimension_required (d : Dimension) : Error :=
  "you have a created " +:+ dim_key d +:+ "s, setting " +:+ dim_key d
  +:+ " is required".

Module validator.

(** The incoming parameters: the decoded [data] field of an upload, the
    query string otherwise. *)
Definition incoming (c : Request) : H :=
  match req_data c with
  | Some data => data
  | None => AStr <$> req_query c
  end.

Definition is_upload (c : Request) : bool :=
  match req_data c with
  | Some _ => true
  | None => false
  end.

Definition check_app_name (c : Request) (db : Mongo) (params : H) : option Error :=
  match param params "app_name" with
  | None => Some "app_name is required"
  | Some name =>
      if negb (utils.IsValidInputAppName name) then Some "invalid app_name parameter"
      else if is_upload c && negb (bool_decide (name ∈ (snd <$> db_apps db)))
      then Some "app with this name does not exist"
      else None
  end.

Definition check_version (params : H) : option Error :=
  match param params "version" with
  | None => Some "version is required"
  | Some v =>
      if negb (utils.IsValidInputVersion v) then Some "invalid version parameter"
      else None
  end.

Definition check_dimension (db : Mongo) (params : H) (d : Dimension) : option Error :=
  match param params (dim_key d) with
  | None =>
      if bool_decide (0 < length (dim_records db d))
      then Some (dimension_required d) else None
  | Some name =>
      if bool_decide (name ∈ dim_names db d) then None
      else Some (dim_key d +:+ " with this name does not exist")
  end.

(** The first error of a sequence of checks. *)
Fixpoint first_error (checks : list (option Error)) : option Error :=
  match checks with
  | [] => None
  | Some e :: _ => Some e
  | None :: rest => first_error rest
  end.

(** Modelled from the spec: [utils.ValidateParams], which is not under
    src/, after section 4.4: [app_name] present, alphanumeric and (on
    uploads) an existing App; [version] present and well-formed; each
    dimension with records must be set; a dimension that is set must
    exist.  The wording of the dimension-required error is the one of
    scenario S5 and of the tests; the spec fixes no other wording and no
    order of the checks.  The result is the incoming map. *)
Definition ValidateParams (c : Request) (db : Mongo) : Result H :=
  let params := incoming c in
  match first_error
          [check_app_name c db params; check_version params;
           check_dimension db params DChannel;
           check_dimension db params DPlatform;
           check_dimension db params DArch] with
  | Some e => Err e
  | None => Ok params
  end.

(** Modelled from the spec: [utils.GetBoolParam], which is not under
    src/; [publish] is a boolean of the upload payload (section 6),
    false when it is left out. *)
Definition GetBoolParam (v : option Any) : bool :=
  match v with
  | Some (ABool b) => b
  | _ => false
  end.

End validator.

(** ** The metadata repository *)

Module mongod.

(** A Release is identified by [(app_name, version, channel)]; within it
    an Artifact by [(platform, arch, package)]. *)
Definition release_key (r : SpecificApp) : string * string * string :=
  (AppName r, Version r, Channel r).

Definition artifact_key (a : Artifact) : string * string * string :=
  (Platform a, Arch a, Package a).

Definition same_release (k : string * string * string) (r : SpecificApp) : bool :=
  bool_decide (release_key r = k).

Definition same_artifact (k : string * string * string) (a : Artifact) : bool :=
  bool_decide (artifact_key a = k).

Definition set_releases (rs : list SpecificApp) (db : Mongo) : Mongo :=
  mkMongo (db_apps db) (db_channels db) (db_platforms db) (db_archs db)
          rs (db_next_id db) (db_today db).

Definition bump_id (db : Mongo) : Mongo :=
  mkMongo (db_apps db) (db_channels db) (db_platforms db) (db_archs db)
          (db_releases db) (db_next_id db + 1) (db_today db).

(** A fresh identifier: the counter in 24 hexadecimal digits. *)
Definition hex_digit (n : N) : ascii :=
  if (n <? 10)%N then ascii_of_N (48 + n) else ascii_of_N (87 + n).

Fixpoint hex_digits (k : nat) (n : N) (acc : string) : string :=
  match k with
  | O => acc
  | S k' => hex_digits k' (n / 16)%N (String (hex_digit (n mod 16)%N) acc)
  end.

Definition fresh_id (db : Mongo) : ObjectID :=
  mkObjectID (hex_digits 24 (db_next_id db) "").

Definition has_changelog (version : string) (r : SpecificApp) : bool :=
  existsb (λ e, bool_decide (cl_Version e = version)) (app_Changelog r).

(** Appending an artifact to a stored release; the changelog gains an
    entry for the version iff it has none. *)
Definition extend (r : SpecificApp) (a : Artifact) (entry : Changelog) : SpecificApp :=
  mkSpecificApp (ID r) (AppName r) (Version r) (Channel r) (Published r)
    (Critical r) (Artifacts r ++ [a])
    (if has_changelog (cl_Version entry) r then app_Changelog r
     else app_Changelog r ++ [entry]).

Definition duplicate_artifact : Error :=
  "app with this name, version, and extension already exists".

(** Modelled from the spec: [repository.Upload], which is not under src/,
    after section 4.3: insert-or-extend.  The Release is looked up by
    [(app_name, version, channel)]; if there is none, one is created with
    the one Artifact; if there is one and it holds an Artifact with the
    same [(platform, arch, ext)], the call fails with the error of
    scenario S6, else the Artifact is appended. *)
Definition Upload (params : H) (link ext : string) (db : Mongo) : Result Any * Mongo :=
  let app := as_string (params !! "app_name") in
  let ver := as_string (params !! "version") in
  let channel := as_string (params !! "channel") in
  let platform := as_string (params !! "platform") in
  let arch := as_string (params !! "arch") in
  let artifact := mkArtifact link platform arch ext in
  let entry := mkChangelog ver (as_string (params !! "changelog")) (db_today db) in
  match List.find (same_release (app, ver, channel)) (db_releases db) with
  | None =>
      let r := mkSpecificApp (fresh_id db) app ver channel
                 (validator.GetBoolParam (params !! "publish"))
                 (validator.GetBoolParam (params !! "critical"))
                 [artifact] [entry] in
      (Ok (ASpecificApp r), bump_id (set_releases (db_releases db ++ [r]) db))
  | Some r =>
      if existsb (same_artifact (platform, arch, ext)) (Artifacts r)
      then (Err duplicate_artifact, db)
      else
        let r' := extend r artifact entry in
        (Ok (ASpecificApp r'),
         set_releases
           ((λ x, if same_release (app, ver, channel) x then r' else x)
              <$> db_releases db) db)
  end.

Definition targets (platform arch : string) (a : Artifact) : bool :=
  bool_decide (Platform a = platform) && bool_decide (Arch a = arch).

(** The candidates of the resolver (section 4.5, rule 1); a stored
    version that does not decompose takes no part in the ordering. *)
Definition is_candidate (app channel platform arch : string) (r : SpecificApp) : bool :=
  bool_decide (AppName r = app) && bool_decide (Channel r = channel)
  && Published r && existsb (targets platform arch) (Artifacts r)
  && bool_decide (is_Some (version.parse (Version r))).

Definition candidates (db : Mongo) (app channel platform arch : string)
  : list SpecificApp :=
  List.filter (is_candidate app channel platform arch) (db_releases db).

Definition parsed (r : SpecificApp) : N * N * N * N :=
  default (0, 0, 0, 0)%N (version.parse (Version r)).

(** One step of the argmax: keep the release with the larger version. *)
Definition pick (best : option SpecificApp) (r : SpecificApp) : option SpecificApp :=
  match best with
  | None => Some r
  | Some b =>
      match version.compare (parsed b) (parsed r) with
      | Lt => Some r
      | _ => Some b
      end
  end.

(** Modelled from the spec: [getLatestPublished] of section 4.3, which is
    not under src/: the Release with the largest version among the
    published ones that hold an Artifact for [(platform, arch)]. *)
Definition getLatestPublished (db : Mongo) (app channel platform arch : string)
  : option SpecificApp :=
  foldl pick None (candidates db app channel platform arch).

Definition newer_than_latest (v : string) : Error :=
  "requested version " +:+ v +:+ " is newer than the latest version available".

(** Modelled from the spec: [repository.CheckLatestVersion], which is not
    under src/, after the table of section 4.5: no candidate gives
    not-found with no artifacts; a client version above the latest is the
    error of scenario S4; a client at the latest gets not-found with the
    winner's artifacts for the platform and architecture; an older client
    gets found with them. *)
Definition CheckLatestVersion (app v channel platform arch : string) (db : Mongo)
  : Result CheckResult :=
  match version.parse v with
  | None => Err ("invalid version " +:+ v)
  | Some client =>
      match getLatestPublished db app channel platform arch with
      | None => Ok (mkCheckResult false [])
      | Some r =>
          let urls := List.filter (targets platform arch) (Artifacts r) in
          match version.compare client (parsed r) with
          | Gt => Err (newer_than_latest v)
          | Eq => Ok (mkCheckResult false urls)
          | Lt => Ok (mkCheckResult true urls)
          end
      end
  end.

(** Modelled from the spec: [search], [list] and [delete] of section 4.3,
    whose repository methods are not under src/: the releases of an app,
    all releases, and the removal of a release, which returns the links
    to purge and the count. *)
Definition GetAppByName (appName : string) (db : Mongo)
  : Result (option (list SpecificApp)) :=
  match List.filter (λ r, bool_decide (AppName r = appName)) (db_releases db) with
  | [] => Ok None
  | l => Ok (Some l)
  end.

Definition Get (db : Mongo) : Result (option (list SpecificApp)) :=
  match db_releases db with
  | [] => Ok None
  | l => Ok (Some l)
  end.

Definition DeleteApp (id : ObjectID) (db : Mongo)
  : (list string * Any * option Error) * Mongo :=
  let hit := λ r, bool_decide (Hex (ID r) = Hex id) in
  let gone := List.filter hit (db_releases db) in
  ((Link <$> concat (Artifacts <$> gone), AInt (Z.of_nat (length gone)), None),
   set_releases (List.filter (λ r, negb (hit r)) (db_releases db)) db).

(** What a release says about a dimension: its channel, or the
    platforms or architectures of its artifacts. *)
Definition references (d : Dimension) (name : string) (r : SpecificApp) : bool :=
  match d with
  | DChannel => bool_decide (Channel r = name)
  | DPlatform => existsb (λ a, bool_decide (Platform a = name)) (Artifacts r)
  | DArch => existsb (λ a, bool_decide (Arch a = name)) (Artifacts r)
  end.

Definition set_records (d : Dimension) (l : list (ObjectID * string)) (db : Mongo)
  : Mongo :=
  match d with
  | DChannel => mkMongo (db_apps db) l (db_platforms db) (db_archs db)
                  (db_releases db) (db_next_id db) (db_today db)
  | DPlatform => mkMongo (db_apps db) (db_channels db) l (db_archs db)
                  (db_releases db) (db_next_id db) (db_today db)
  | DArch => mkMongo (db_apps db) (db_channels db) (db_platforms db) l
                  (db_releases db) (db_next_id db) (db_today db)
  end.

(** Modelled from the spec: the dimension delete of section 4.2, which is
    not under src/: a name that a Release still references is not
    removed ([DimensionInUse]); otherwise the record goes and the count
    of removed records is returned. *)
Definition delete_dimension (d : Dimension) (id : ObjectID) (db : Mongo)
  : Result Any * Mongo :=
  let hit := λ rec : ObjectID * string, bool_decide (Hex rec.1 = Hex id) in
  match List.find hit (dim_records db d) with
  | None => (Ok (AInt 0), db)
  | Some rec =>
      if existsb (references d rec.2) (db_releases db)
      then (Err "DimensionInUse", db)
      else (Ok (AInt 1),
            set_records d (List.filter (λ x, negb (hit x)) (dim_records db d)) db)
  end.

(** The repository over the model. *)
Definition repository : AppRepository :=
  mkRepository Upload CheckLatestVersion GetAppByName Get DeleteApp
    (delete_dimension DChannel) (delete_dimension DPlatform)
    (delete_dimension DArch).

(** A repository whose store is unreachable: every call returns the
    driver's error. *)
Definition unreachable (e : Error) : AppRepository :=
  mkRepository
    (λ _ _ _ db, (Err e, db))
    (λ _ _ _ _ _ _, Err e)
    (λ _ _, Err e)
    (λ _, Err e)
    (λ _ db, (([], ANil, Some e), db))
    (λ _ db, (Err e, db))
    (λ _ db, (Err e, db))
    (λ _ db, (Err e, db)).

End mongod.

(** ** A concrete deployment: the scenario of the end-to-end tests *)

Module scenario.

Definition env : Viper :=
  {[ "S3_ENDPOINT" := "https://s3.example"; "S3_BUCKET_NAME" := "bucket" ]}.

(** An uploader in the calling convention of [UploadApp], put together
    from the locals of [utils.UploadToS3]. *)
Definition UploadToS3 (ctxQueryMap : H) (file : utils.FileHeader) (s3 : S3)
  : Result (string * string) * S3 :=
  let appName := as_string (ctxQueryMap !! "app_name") in
  let ver := as_string (ctxQueryMap !! "version") in
  let ext := utils.extension (utils.Filename file) in
  let name := utils.newFileName appName ver ext in
  match utils.Open file with
  | Err e => (Err e, s3)
  | Ok body =>
      match PutObject (GetString env "S3_BUCKET_NAME")
              (utils.s3Key appName name) (Some body) s3 with
      | (Some e, s3') => (Err e, s3')
      | (None, s3') => (Ok (utils.link env appName name, ext), s3')
      end
  end.

(** The only metacharacter of the invalidation pattern is [*]. *)
Fixpoint star_match_from (fuel : nat) (pattern key : string) : bool :=
  match fuel with
  | O => false
  | S fuel' =>
      match pattern with
      | "" => bool_decide (key = "")
      | String "*" p' =>
          star_match_from fuel' p' key
          || match key with
             | "" => false
             | String _ k' => star_match_from fuel' pattern k'
             end
      | String c p' =>
          match key with
          | "" => false
          | String d k' => bool_decide (c = d) && star_match_from fuel' p' k'
          end
      end
  end.

Definition star_match (pattern key : string) : bool :=
  star_match_from (S (String.length pattern + String.length key)) pattern key.

Definition s3_0 : S3 := mkS3 ∅ (λ _, None) (λ _, None).


Definition oid (s : string) : ObjectID := mkObjectID s.

Definition db0 : Mongo :=
  mkMongo [(oid "a1", "testapp")] [] [] [] [] 1 "2026-01-01".

(** The store of scenario S5: an app and one channel. *)
Definition db5 : Mongo :=
  mkMongo [(oid "a1", "testapp")] [(oid "c1", "nightly")] [] [] [] 2 "2026-01-01".

(** The store of scenario S1, one artifact per release. *)
Definition dmg (ver : string) : Artifact :=
  mkArtifact ("https://s3.example/testapp/testapp-" +:+ ver +:+ ".dmg")
    "universalPlatform" "universalArch" ".dmg".

Definition release (n : string) (ver channel : string) (published : bool) : SpecificApp :=
  mkSpecificApp (oid n) "testapp" ver channel published false [dmg ver]
    [mkChangelog ver "" "2026-01-01"].

Definition db1 : Mongo :=
  mkMongo [(oid "a1", "testapp")]
    [(oid "c1", "nightly"); (oid "c2", "stable")]
    [(oid "p1", "universalPlatform")] [(oid "r1", "universalArch")]
    [release "01" "0.0.1.137" "nightly" true;
     release "02" "0.0.2.137" "nightly" true;
     release "03" "0.0.3.137" "nightly" false]
    4 "2026-01-01".

Definition cache1 : Redis :=
  mkRedis
    {[ "app_name=testapp&version=0.0.1.137&channel=nightly&platform=universalPlatform&arch=universalArch" := "{}";
       "app_name=testapp&version=0.0.1.137&channel=stable&platform=universalPlatform&arch=universalArch" := "{}" ]}
    star_match None (λ _, None).

Definition world (db : Mongo) (rdb : option Redis) : World :=
  mkWorld db s3_0 rdb [] [].

Definition license : utils.FileHeader := utils.mkFileHeader "LICENSE" (Ok "Apache").
Definition testapp_dmg : utils.FileHeader := utils.mkFileHeader "testapp.dmg" (Ok "dmg").

Definition upload_request (data : H) (files : list utils.FileHeader) : Request :=
  mkRequest ∅ (Some data) (Ok (mkForm {[ "file" := files ]})).

Definition check_request (ver : string) : Request :=
  mkRequest
    {[ "app_name" := "testapp"; "version" := ver; "channel" := "nightly";
       "platform" := "universalPlatform"; "arch" := "universalArch" ]}
    None (Err "request Content-Type isn't multipart/form-data").

Definition full_payload (ver : string) (publish : bool) : H :=
  {[ "app_name" := AStr "testapp"; "version" := AStr ver;
     "channel" := AStr "nightly"; "publish" := ABool publish;
     "platform" := AStr "universalPlatform"; "arch" := AStr "universalArch" ]}.

End scenario.

(** ** Vocabulary of the properties *)

(** What [file.Open()] hands to [PutObject]. *)
Definition reader (file : utils.FileHeader) : option string :=
  match utils.Open file with
  | Ok r => Some r
  | Err _ => None
  end.

(** The key convention in the words of the specification (section 6):
    [<app_name>/<channel>/<platform>/<arch>/<app_name>-<version><ext>]. *)
Definition spec_key (app channel platform arch ver ext : string) : string :=
  app +:+ "/" +:+ channel +:+ "/" +:+ platform +:+ "/" +:+ arch +:+ "/"
  +:+ app +:+ "-" +:+ ver +:+ ext.

(** The invalidation pattern of an upload with the given parameters. *)
Definition pattern_of (params : H) : string :=
  cache_pattern (as_string (params !! "app_name")) (as_string (params !! "channel")).

(** The order on versions in the words of the specification (section 8,
    property 3): the first component at which the two differ is smaller
    in the first. *)
Definition version_before (v w : N * N * N * N) : Prop :=
  let '(a1, b1, c1, d1) := v in
  let '(a2, b2, c2, d2) := w in
  (a1 < a2 ∨ (a1 = a2 ∧ (b1 < b2 ∨ (b1 = b2 ∧ (c1 < c2 ∨ (c1 = c2 ∧ d1 < d2))))))%N.

(** [r] is a latest published release for the query: a candidate that no
    candidate is newer than. *)
Definition is_latest (db : Mongo) (app channel platform arch : string)
    (r : SpecificApp) : Prop :=
  r ∈ mongod.candidates db app channel platform arch
  ∧ ∀ r', r' ∈ mongod.candidates db app channel platform arch →
          ¬ version_before (mongod.parsed r) (mongod.parsed r').

(** The tuple [(app_name, version, channel, platform, arch, package)] is
    in the artifact store. *)
Definition artifact_present (db : Mongo)
    (app ver channel platform arch package : string) : Prop :=
  ∃ r a, r ∈ db_releases db ∧ mongod.release_key r = (app, ver, channel)
         ∧ a ∈ Artifacts r ∧ mongod.artifact_key a = (platform, arch, package).

(** The store holds one Release per [(app_name, version, channel)]. *)
Definition releases_unique (db : Mongo) : Prop :=
  NoDup (mongod.release_key <$> db_releases db).

(** A dimension of an upload is in order: left out while the dimension
    has no record, or set to the name of a record. *)
Definition dimension_ok (db : Mongo) (params : H) (d : Dimension) : Prop :=
  match param params (dim_key d) with
  | None => dim_records db d = []
  | Some name => name ∈ dim_names db d
  end.

(** [app_name] and [version] of an upload are in order. *)
Definition app_and_version_ok (db : Mongo) (params : H) : Prop :=
  (∃ name, param params "app_name" = Some name
           ∧ utils.IsValidInputAppName name = true
           ∧ name ∈ (snd <$> db_apps db))
  ∧ ∃ v, param params "version" = Some v ∧ utils.IsValidInputVersion v = true.

(** The response key of an artifact in [FindLatestVersion], and the test
    that lets the artifact into the response. *)
Definition url_key (a : Artifact) : string :=
  "update_url_" +:+ GoStrings.TrimPrefix (Package a) ".".

Definition has_url (a : Artifact) : Prop := Package a ≠ "" ∧ Link a ≠ "".

(** The object keys that [DeleteApp] asks the object store to delete. *)
Definition purge_keys (env : Viper) (links : list string) : list string :=
  (λ link, GoStrings.TrimPrefix link (GetString env "S3_ENDPOINT")) <$> links.

(** The artifacts of the results that are releases, in order. *)
Definition result_artifacts (results : list Any) : list Artifact :=
  results ≫= λ r, match r with ASpecificApp a => Artifacts a | _ => [] end.

(** * Properties *)

(** ** Evaluation on the scenario *)

Example extension_dmg : utils.extension "testapp.dmg" = ".dmg".
Proof. reflexivity. Qed.

Example extension_none : utils.extension "LICENSE" = "".
Proof. reflexivity. Qed.

Example first_upload_written :
  w_written
    (UploadApp validator.ValidateParams scenario.UploadToS3 validator.GetBoolParam
       mongod.repository
       (scenario.upload_request
          {[ "app_name" := AStr "testapp"; "version" := AStr "0.0.1.137" ]}
          [scenario.license])
       true (scenario.world scenario.db0 None))
  = [(200%Z, {[ "uploadResult" := AStr "000000000000000000000001" ]})].
Proof. vm_compute. reflexivity. Qed.

Example check_equal_written :
  w_written
    (FindLatestVersion validator.ValidateParams mongod.repository
       (scenario.check_request "0.0.2.137") (scenario.world scenario.db1 None))
  = [(200%Z, <[ "update_available" := ABool false ]> {[ "error" := AStr "Not found" ]})].
Proof. vm_compute. reflexivity. Qed.

Example check_newer_written :
  w_written
    (FindLatestVersion validator.ValidateParams mongod.repository
       (scenario.check_request "0.0.3.137") (scenario.world scenario.db1 None))
  = [(500%Z, error_body "requested version 0.0.3.137 is newer than the latest version available")].
Proof. vm_compute. reflexivity. Qed.

(** ** Byte strings *)

Section string_facts.
Import GoStrings.

Lemma append_cons (c : ascii) (s t : string) : String c s +:+ t = String c (s +:+ t).
Proof. reflexivity. Qed.

Lemma append_empty_r (s : string) : s +:+ "" = s.
Proof. induction s as [|c s IH]; [done|]. by rewrite append_cons, IH. Qed.

Lemma HasPrefix_byte (c : ascii) (s : string) :
  HasPrefix s (String c "") =
  match s with
  | "" => false
  | String b _ => bool_decide (c = b)
  end.
Proof. destruct s as [|b s]; [done|]. simpl. by case_decide; case_bool_decide. Qed.

Lemma IndexFrom_unfold (i : Z) (s substr : string) :
  IndexFrom i s substr =
  if HasPrefix s substr then i
  else match s with
       | "" => (-1)%Z
       | String _ s' => IndexFrom (i + 1) s' substr
       end.
Proof. by destruct s. Qed.

Lemma IndexFrom_absent (c : ascii) (s : string) (i : Z) :
  occurs c s = false → IndexFrom i s (String c "") = (-1)%Z.
Proof.
  revert i. induction s as [|b s IH]; intros i Hocc; [done|].
  simpl in Hocc. destruct (decide (c = b)) as [|Hne]; [done|].
  rewrite IndexFrom_unfold, HasPrefix_byte, bool_decide_eq_false_2 by done.
  by apply IH.
Qed.

Lemma IndexFrom_first (c : ascii) (pre rest : string) (i : Z) :
  occurs c pre = false →
  IndexFrom i (pre +:+ String c rest) (String c "") = (i + Z.of_nat (String.length pre))%Z.
Proof.
  revert i. induction pre as [|b pre IH]; intros i Hocc.
  - change ("" +:+ String c rest) with (String c rest).
    rewrite IndexFrom_unfold, HasPrefix_byte, bool_decide_eq_true_2 by done.
    simpl. lia.
  - simpl in Hocc. destruct (decide (c = b)) as [|Hne]; [done|].
    rewrite append_cons, IndexFrom_unfold, HasPrefix_byte,
      bool_decide_eq_false_2 by done.
    rewrite IH by done. simpl String.length. lia.
Qed.

Lemma skip_append (pre s : string) : skip (String.length pre) (pre +:+ s) = s.
Proof. induction pre as [|b pre IH]; [by destruct s|]. by rewrite append_cons. Qed.

Lemma extension_no_dot (name : string) :
  occurs "." name = false → utils.extension name = "".
Proof.
  intros Hocc. unfold utils.extension, Index.
  by rewrite (IndexFrom_absent "." name 0 Hocc).
Qed.

Lemma extension_first_dot (pre rest : string) :
  occurs "." pre = false → utils.extension (pre +:+ "." +:+ rest) = "." +:+ rest.
Proof.
  intros Hocc. unfold utils.extension, Index.
  change ("." +:+ rest) with (String "." rest).
  rewrite (IndexFrom_first "." pre rest 0 Hocc).
  destruct (Z.ltb_spec (-1) (0 + Z.of_nat (String.length pre))) as [_|]; [|lia].
  unfold slice_from. rewrite Z.add_0_l, Nat2Z.id. apply skip_append.
Qed.

End string_facts.

(** ** The object-store helper *)

Section upload_to_s3.

Lemma UploadToS3_link (appName ver : string) (file : utils.FileHeader)
    (env : Viper) (w : World) :
  (utils.UploadToS3 appName ver file env w).1
  = utils.link env appName
      (utils.newFileName appName ver (utils.extension (utils.Filename file))).
Proof.
  unfold utils.UploadToS3.
  destruct (utils.Open file); simpl;
    by match goal with |- context [PutObject ?b ?k ?r ?s] =>
         destruct (PutObject b k r s) end.
Qed.

Lemma UploadToS3_store (appName ver : string) (file : utils.FileHeader)
    (env : Viper) (w : World) :
  w_s3 (utils.UploadToS3 appName ver file env w).2
  = (PutObject (GetString env "S3_BUCKET_NAME")
       (utils.s3Key appName
          (utils.newFileName appName ver (utils.extension (utils.Filename file))))
       (reader file) (w_s3 w)).2.
Proof.
  unfold utils.UploadToS3, reader.
  destruct (utils.Open file); simpl;
    match goal with |- context [PutObject ?b ?k ?r ?s] =>
      destruct (PutObject b k r s) as [[?|] ?] end; done.
Qed.

Lemma PutObject_stored (bucket key : string) (body : option string) (s : S3) :
  s3_put_fault s key = None →
  s3_objects (PutObject bucket key body s).2 !! (bucket, key) = Some body.
Proof. intros Hf. unfold PutObject. rewrite Hf. simpl. apply lookup_insert_eq. Qed.

End upload_to_s3.

(** ** Claims on the object-store key, link and extension *)

Lemma length_append (s t : string) :
  String.length (s +:+ t) = String.length s + String.length t.
Proof. induction s as [|c s IH]; [done|]. rewrite append_cons. simpl. by rewrite IH. Qed.

Lemma key_differs_from_spec_key (appName channel platform arch rest : string) :
  appName +:+ "/" +:+ rest
  ≠ appName +:+ "/" +:+ channel +:+ "/" +:+ platform +:+ "/" +:+ arch +:+ "/" +:+ rest.
Proof.
  intros Heq. apply (f_equal String.length) in Heq.
  rewrite !length_append in Heq. simpl in Heq. lia.
Qed.

(** C5, on the code: [UploadToS3] writes one object, under the key
    [<app_name>/<app_name>-<version><ext>], and returns the link
    [<S3_ENDPOINT>/<app_name>/<app_name>-<version><ext>].  Whatever the
    channel, platform and architecture of the upload, that key is not
    [<app_name>/<channel>/<platform>/<arch>/<app_name>-<version><ext>]
    and that link is not the endpoint followed by it. *)
Theorem C5_key_lacks_dimensions (appName channel platform arch ver : string)
    (file : utils.FileHeader) (env : Viper) (w : World) :
  let ext := utils.extension (utils.Filename file) in
  let key := appName +:+ "/" +:+ appName +:+ "-" +:+ ver +:+ ext in
  let claimed := spec_key appName channel platform arch ver ext in
  let '(lnk, w') := utils.UploadToS3 appName ver file env w in
  key ≠ claimed
  ∧ lnk = GetString env "S3_ENDPOINT" +:+ "/" +:+ key
  ∧ lnk ≠ GetString env "S3_ENDPOINT" +:+ "/" +:+ claimed
  ∧ w_s3 w'
    = (PutObject (GetString env "S3_BUCKET_NAME") key (reader file) (w_s3 w)).2
  ∧ s3_objects (w_s3 w') !! (GetString env "S3_BUCKET_NAME", claimed)
    = s3_objects (w_s3 w) !! (GetString env "S3_BUCKET_NAME", claimed).
Proof.
  intros ext key claimed.
  pose proof (UploadToS3_link appName ver file env w) as Hl.
  pose proof (UploadToS3_store appName ver file env w) as Hs.
  destruct (utils.UploadToS3 appName ver file env w) as [lnk w'].
  cbn [fst snd] in Hl, Hs.
  assert (key ≠ claimed) as Hne by apply key_differs_from_spec_key.
  split; [done|]. split; [by rewrite Hl|]. split; [|split; [by rewrite Hs|]].
  - rewrite Hl. intros Heq. apply Hne.
    by do 2 apply (inj (String.app _)) in Heq.
  - rewrite Hs. unfold PutObject.
    destruct (s3_put_fault (w_s3 w) (utils.s3Key appName _)); [done|].
    simpl. apply lookup_insert_ne. intros [= Heq]. by apply Hne.
Qed.

(** The same at the nightly release of [testapp] for
    [universalPlatform]/[universalArch]: nothing is stored under the key
    with the three dimensions, and the link is not the endpoint followed
    by that key. *)
Lemma nightly_key_without_dimensions :
  let '(lnk, w') :=
    utils.UploadToS3 "testapp" "0.0.1.137" scenario.testapp_dmg scenario.env
      (scenario.world scenario.db1 None) in
  let key := spec_key "testapp" "nightly" "universalPlatform" "universalArch"
               "0.0.1.137" ".dmg" in
  s3_objects (w_s3 w') !! ("bucket", key) = None
  ∧ s3_objects (w_s3 w') !! ("bucket", "testapp/testapp-0.0.1.137.dmg")
    = Some (Some "dmg")
  ∧ lnk = "https://s3.example/testapp/testapp-0.0.1.137.dmg"
  ∧ lnk ≠ "https://s3.example" +:+ "/" +:+ key.
Proof. vm_compute. repeat split; discriminate. Qed.

(** Through [UploadApp], with the uploader put together from the locals
    of [utils.UploadToS3], that link is the one recorded in the new
    artifact, and the one object written has the key without the
    dimensions. *)
Lemma UploadApp_records_helper_link :
  let c := scenario.upload_request (scenario.full_payload "0.0.4.137" true)
             [scenario.testapp_dmg] in
  let w := scenario.world scenario.db1 None in
  let w' := UploadApp validator.ValidateParams scenario.UploadToS3
              validator.GetBoolParam mongod.repository c true w in
  let recorded := "https://s3.example/testapp/testapp-0.0.4.137.dmg" in
  Link <$> (db_releases (w_db w') ≫= Artifacts)
  = (Link <$> (db_releases (w_db w) ≫= Artifacts)) ++ [recorded]
  ∧ (map_to_list (s3_objects (w_s3 w'))).*1
    = [("bucket", "testapp/testapp-0.0.4.137.dmg")]
  ∧ recorded
    ≠ "https://s3.example" +:+ "/"
      +:+ spec_key "testapp" "nightly" "universalPlatform" "universalArch"
            "0.0.4.137" ".dmg".
Proof. vm_compute. repeat split; discriminate. Qed.

(** C9: the extension that [UploadToS3] puts at the end of the stored key
    and of the returned link is the file name from its first [.] on: none
    when the name has no dot (the key then ends in [<app>-<version>]), the
    whole multi-dot suffix otherwise, [.tar.gz] for [name.tar.gz]. *)
Theorem C9_extension_from_first_dot (appName ver : string)
    (file : utils.FileHeader) (env : Viper) (w : World) :
  let ext := utils.extension (utils.Filename file) in
  let key := appName +:+ "/" +:+ appName +:+ "-" +:+ ver +:+ ext in
  (utils.UploadToS3 appName ver file env w).1
    = GetString env "S3_ENDPOINT" +:+ "/" +:+ key
  ∧ w_s3 (utils.UploadToS3 appName ver file env w).2
    = (PutObject (GetString env "S3_BUCKET_NAME") key (reader file) (w_s3 w)).2
  ∧ (GoStrings.occurs "." (utils.Filename file) = false →
     ext = "" ∧ key = appName +:+ "/" +:+ appName +:+ "-" +:+ ver)
  ∧ (∀ pre rest,
       utils.Filename file = pre +:+ "." +:+ rest →
       GoStrings.occurs "." pre = false →
       ext = "." +:+ rest)
  ∧ utils.extension "name.tar.gz" = ".tar.gz".
Proof.
  intros ext key. split; [apply UploadToS3_link|].
  split; [apply UploadToS3_store|].
  split; [|split; [|reflexivity]].
  - intros Hocc. unfold key, ext. rewrite (extension_no_dot _ Hocc).
    by rewrite append_empty_r.
  - intros pre rest Hname Hocc. unfold ext. rewrite Hname.
    by apply extension_first_dot.
Qed.

Lemma C9_extension_from_first_dot_witness :
  (GoStrings.occurs "." "LICENSE" = false
   ∧ utils.extension "LICENSE" = "")
  ∧ ("a.b.tar.gz" = "a" +:+ "." +:+ "b.tar.gz"
     ∧ GoStrings.occurs "." "a" = false
     ∧ utils.extension "a.b.tar.gz" = "." +:+ "b.tar.gz").
Proof.
  pose proof (C9_extension_from_first_dot "testapp" "0.0.1.137"
                scenario.license scenario.env (scenario.world scenario.db0 None))
    as (_ & _ & Hnone & _).
  pose proof (C9_extension_from_first_dot "testapp" "0.0.1.137"
                (utils.mkFileHeader "a.b.tar.gz" (Ok ""))
                scenario.env (scenario.world scenario.db0 None))
    as (_ & _ & _ & Hdots & _).
  split.
  - split; [reflexivity|]. exact (proj1 (Hnone eq_refl)).
  - split; [reflexivity|]. split; [reflexivity|].
    exact (Hdots "a" "b.tar.gz" eq_refl eq_refl).
Defined.

(** ** The cache invalidator *)

Section invalidate_cache_facts.

Lemma rdb_Del_faults (key : string) (r : Redis) :
  rdb_match (rdb_Del key r).2 = rdb_match r
  ∧ rdb_keys_fault (rdb_Del key r).2 = rdb_keys_fault r
  ∧ rdb_del_fault (rdb_Del key r).2 = rdb_del_fault r.
Proof. unfold rdb_Del. by destruct (rdb_del_fault r key). Qed.

Lemma rdb_Del_data (key k : string) (r : Redis) :
  rdb_data (rdb_Del key r).2 !! k
  = if decide (k = key ∧ rdb_del_fault r k = None) then None else rdb_data r !! k.
Proof.
  unfold rdb_Del. destruct (rdb_del_fault r key) as [e|] eqn:Hf; simpl.
  - case_decide as Hk; [|done]. destruct Hk as [-> Hk]. congruence.
  - case_decide as Hk.
    + destruct Hk as [-> _]. apply lookup_delete_eq.
    + apply lookup_delete_ne. intros <-. by apply Hk.
Qed.

Lemma rdb_Keys_elem (pattern k : string) (r : Redis) (keys : list string) :
  rdb_Keys pattern r = Ok keys →
  k ∈ keys ↔ rdb_match r pattern k = true ∧ is_Some (rdb_data r !! k).
Proof.
  unfold rdb_Keys. destruct (rdb_keys_fault r); [done|].
  intros [= <-]. by rewrite list_elem_of_filter, elem_of_elements, elem_of_dom.
Qed.

Lemma invalidate_keys_frame (keys : list string) (r : Redis) (w : World) :
  w_db (invalidate_keys keys r w).2 = w_db w
  ∧ w_s3 (invalidate_keys keys r w).2 = w_s3 w
  ∧ w_rdb (invalidate_keys keys r w).2 = w_rdb w
  ∧ w_written (invalidate_keys keys r w).2 = w_written w.
Proof.
  revert r w. induction keys as [|key keys IH]; intros r w; [done|].
  simpl. destruct (rdb_Del key r) as [err r'].
  destruct (IH r' (match err with
                   | Some e => logrus_Error ("Failed to invalidate key: " +:+ key
                                             +:+ ", error: " +:+ e)
                                 (logrus_Debug ("Invalidating key: " +:+ key) w)
                   | None => logrus_Debug ("Invalidating key: " +:+ key) w
                   end)) as (-> & -> & -> & ->).
  by destruct err.
Qed.

Lemma invalidate_keys_data (keys : list string) (r : Redis) (w : World) (k : string) :
  rdb_data (invalidate_keys keys r w).1 !! k
  = if decide (k ∈ keys ∧ rdb_del_fault r k = None) then None else rdb_data r !! k.
Proof.
  revert r w. induction keys as [|key keys IH]; intros r w.
  - cbn [invalidate_keys fst]. case_decide as Hk; [|done]. destruct Hk as [Hk _].
    by apply elem_of_nil in Hk.
  - cbn [invalidate_keys]. pose proof (rdb_Del_data key k r) as Hd.
    pose proof (rdb_Del_faults key r) as (_ & _ & Hf).
    destruct (rdb_Del key r) as [err r']. cbn [fst snd] in Hd, Hf.
    rewrite IH, Hf, Hd.
    destruct (decide (k ∈ keys ∧ rdb_del_fault r k = None)) as [[Hin Hk]|Hn1];
      destruct (decide (k = key ∧ rdb_del_fault r k = None)) as [[Hkey Hk']|Hn2];
      destruct (decide (k ∈ key :: keys ∧ rdb_del_fault r k = None))
        as [[Hin' Hk'']|Hn3];
      try done; exfalso.
    + apply Hn3. split; [by apply list_elem_of_further|done].
    + apply Hn3. split; [by apply list_elem_of_further|done].
    + apply Hn3. split; [subst k; apply list_elem_of_here|done].
    + apply elem_of_cons in Hin' as [Hkey|Hin]; [by apply Hn2|by apply Hn1].
Qed.

Lemma invalidate_keys_log_mono (keys : list string) (r : Redis) (w : World)
    (x : Sink * string) :
  x ∈ w_log w → x ∈ w_log (invalidate_keys keys r w).2.
Proof.
  revert r w. induction keys as [|key keys IH]; intros r w Hx; [done|].
  simpl. destruct (rdb_Del key r) as [err r']. apply IH.
  destruct err; simpl; rewrite ?elem_of_app; auto.
Qed.

Lemma invalidate_keys_log (keys : list string) (r : Redis) (w : World)
    (k : string) (e : Error) :
  k ∈ keys → rdb_del_fault r k = Some e →
  (ErrorLevel, "Failed to invalidate key: " +:+ k +:+ ", error: " +:+ e)
    ∈ w_log (invalidate_keys keys r w).2.
Proof.
  revert r w. induction keys as [|key keys IH]; intros r w Hk Hf.
  { by apply elem_of_nil in Hk. }
  simpl. pose proof (rdb_Del_faults key r) as (_ & _ & Hf').
  destruct (decide (k = key)) as [->|Hne].
  - unfold rdb_Del in *. rewrite Hf. apply invalidate_keys_log_mono.
    simpl. rewrite elem_of_app, list_elem_of_singleton. by right.
  - apply elem_of_cons in Hk as [?|Hk]; [done|].
    destruct (rdb_Del key r) as [err r']. simpl in Hf'.
    apply IH; [done|]. by rewrite Hf'.
Qed.

End invalidate_cache_facts.

Section invalidate_cache_spec.
Variable params : H.

Local Abbreviation pattern := (pattern_of params).

Lemma InvalidateCache_frame (r : Redis) (w : World) :
  w_db (InvalidateCache params r w).2 = w_db w
  ∧ w_s3 (InvalidateCache params r w).2 = w_s3 w
  ∧ w_rdb (InvalidateCache params r w).2 = w_rdb w
  ∧ w_written (InvalidateCache params r w).2 = w_written w.
Proof.
  unfold InvalidateCache. destruct (rdb_Keys _ r) as [keys|e]; [|done].
  case_bool_decide; [done|].
  match goal with |- context [invalidate_keys ?ks ?r ?w] =>
    pose proof (invalidate_keys_frame ks r w) as Hfr;
    destruct (invalidate_keys ks r w) end.
  apply Hfr.
Qed.

Lemma InvalidateCache_data (r : Redis) (w : World) (k : string) :
  rdb_keys_fault r = None →
  rdb_data (InvalidateCache params r w).1.2 !! k
  = if decide (rdb_match r pattern k = true ∧ rdb_del_fault r k = None)
    then None else rdb_data r !! k.
Proof.
  intros Hkf. unfold InvalidateCache. fold (pattern_of params).
  destruct (rdb_Keys pattern r) as [keys|e] eqn:Hkeys;
    [|unfold rdb_Keys in Hkeys; by rewrite Hkf in Hkeys].
  pose proof (rdb_Keys_elem pattern k r keys Hkeys) as Hin.
  assert (rdb_data
            (if bool_decide (length keys = 0) then r
             else (invalidate_keys keys r
                     (logrus_Debug ("Redis pattern " +:+ pattern
                                    +:+ " will be invalidated.") w)).1) !! k
          = if decide (k ∈ keys ∧ rdb_del_fault r k = None)
            then None else rdb_data r !! k) as Hd.
  { case_bool_decide as Hlen; [|apply invalidate_keys_data].
    destruct keys; [|done]. case_decide as Hk; [|done].
    destruct Hk as [Hk _]. by apply elem_of_nil in Hk. }
  transitivity (if decide (k ∈ keys ∧ rdb_del_fault r k = None)
                then None else rdb_data r !! k).
  - rewrite <- Hd. case_bool_decide; [done|]. by destruct (invalidate_keys _ _ _).
  - destruct (decide (k ∈ keys ∧ rdb_del_fault r k = None)) as [[Hk Hf]|Hn];
      destruct (decide (rdb_match r pattern k = true ∧ rdb_del_fault r k = None))
        as [[Hm Hf']|Hn']; try done.
    + exfalso. apply Hn'. split; [by apply Hin|done].
    + destruct (rdb_data r !! k) eqn:Hl; [|done].
      exfalso. apply Hn. split; [|done]. apply Hin. split; [done|eauto].
Qed.

Lemma InvalidateCache_keys_fault (r : Redis) (w : World) (e : Error) :
  rdb_keys_fault r = Some e →
  (InvalidateCache params r w).1
  = (Some ("failed to fetch keys for invalidation: " +:+ e), r).
Proof. intros Hkf. unfold InvalidateCache, rdb_Keys. by rewrite Hkf. Qed.

Lemma InvalidateCache_del_logged (r : Redis) (w : World) (k : string) (e : Error) :
  rdb_keys_fault r = None →
  rdb_match r pattern k = true → is_Some (rdb_data r !! k) →
  rdb_del_fault r k = Some e →
  (ErrorLevel, "Failed to invalidate key: " +:+ k +:+ ", error: " +:+ e)
    ∈ w_log (InvalidateCache params r w).2.
Proof.
  intros Hkf Hm Hk Hf. unfold InvalidateCache. fold (pattern_of params).
  destruct (rdb_Keys pattern r) as [keys|e'] eqn:Hkeys;
    [|unfold rdb_Keys in Hkeys; by rewrite Hkf in Hkeys].
  assert (k ∈ keys) as Hin by by apply (rdb_Keys_elem pattern k r keys Hkeys).
  case_bool_decide as Hlen.
  { destruct keys; [by apply elem_of_nil in Hin|done]. }
  match goal with |- context [invalidate_keys ?ks ?r ?w] =>
    pose proof (invalidate_keys_log ks r w k e Hin Hf) as Hlog;
    destruct (invalidate_keys ks r w) end.
  apply Hlog.
Qed.

End invalidate_cache_spec.

(** ** The upload handler *)

Section upload_app_facts.
Variable V : Request → Mongo → Result H.
Variable U : H → utils.FileHeader → S3 → Result (string * string) * S3.
Variable G : option Any → bool.
Variable repo : AppRepository.

Lemma upload_files_inr (p : H) (fs : list utils.FileHeader) (ls es : list string)
    (w : World) (ls' es' : list string) (w' : World) :
  upload_files U p fs ls es w = inr (ls', es', w') →
  w_db w' = w_db w ∧ w_rdb w' = w_rdb w ∧ w_written w' = w_written w
  ∧ w_log w' = w_log w.
Proof.
  revert ls es w. induction fs as [|f fs IH]; intros ls es w Hup.
  - by injection Hup as <- <- <-.
  - simpl in Hup. destruct (U p f (w_s3 w)) as [[[l e]|e] s3']; [|done].
    by apply IH in Hup.
Qed.

Lemma upload_files_inl (p : H) (fs : list utils.FileHeader) (ls es : list string)
    (w w' : World) :
  upload_files U p fs ls es w = inl w' →
  w_db w' = w_db w ∧ w_rdb w' = w_rdb w
  ∧ w_written w' = w_written w
                   ++ [(StatusInternalServerError, error_body "failed to upload file to S3")].
Proof.
  revert ls es w. induction fs as [|f fs IH]; intros ls es w Hup; [done|].
  simpl in Hup. destruct (U p f (w_s3 w)) as [[[l e]|e] s3'].
  - by apply IH in Hup.
  - by injection Hup as <-.
Qed.

Lemma store_links_inr (p : H) (i : nat) (ls es : list string) (rs : list Any)
    (w : World) (rs' : list Any) (w' : World) :
  store_links repo p i ls es rs w = inr (rs', w') →
  w_s3 w' = w_s3 w ∧ w_rdb w' = w_rdb w ∧ w_written w' = w_written w
  ∧ w_log w' = w_log w.
Proof.
  revert i rs w. induction ls as [|l ls IH]; intros i rs w Hst.
  - by injection Hst as <- <-.
  - simpl in Hst.
    destruct (Upload repo p l (default "" (es !! i)) (w_db w)) as [[r|e] db']; [|done].
    by apply IH in Hst.
Qed.

Lemma store_links_inl (p : H) (i : nat) (ls es : list string) (rs : list Any)
    (w w' : World) :
  store_links repo p i ls es rs w = inl w' →
  w_s3 w' = w_s3 w ∧ w_rdb w' = w_rdb w
  ∧ ∃ e, w_written w' = w_written w ++ [(StatusInternalServerError, error_body e)].
Proof.
  revert i rs w. induction ls as [|l ls IH]; intros i rs w Hst; [done|].
  simpl in Hst.
  destruct (Upload repo p l (default "" (es !! i)) (w_db w)) as [[r|e] db'].
  - by apply IH in Hst.
  - injection Hst as <-. eauto.
Qed.

Lemma invalidate_if_published_frame (p : H) (perf : bool) (w : World) :
  w_db (invalidate_if_published G p perf w) = w_db w
  ∧ w_s3 (invalidate_if_published G p perf w) = w_s3 w
  ∧ w_written (invalidate_if_published G p perf w) = w_written w.
Proof.
  unfold invalidate_if_published.
  destruct perf; [|done]. destruct (w_rdb w) as [rdb|]; [|done].
  destruct (G (p !! "publish")); [|done].
  match goal with |- context [InvalidateCache ?p ?r ?w] =>
    pose proof (InvalidateCache_frame p r w) as (Hdb & Hs3 & _ & Hwr);
    destruct (InvalidateCache p r w) as [[err rdb'] w'] end.
  simpl in *. by destruct err.
Qed.

Lemma invalidate_if_published_off (p : H) (perf : bool) (w : World) :
  G (p !! "publish") = false →
  w_rdb (invalidate_if_published G p perf w) = w_rdb w.
Proof.
  intros Hpub. unfold invalidate_if_published.
  destruct perf; [|done]. destruct (w_rdb w) as [rdb|] eqn:Hr; [|done].
  by rewrite Hpub.
Qed.

(** The response step of [UploadApp]: what is written for a list of
    results. *)
Lemma UploadApp_reached (c : Request) (perf : bool) (w : World) (p : H)
    (form : MultipartForm) (ls es : list string) (w1 : World) (rs : list Any)
    (w2 : World) :
  V c (w_db w) = Ok p → req_form c = Ok form →
  upload_files U p (default [] (File form !! "file")) [] [] w = inr (ls, es, w1) →
  store_links repo p 0 ls es [] w1 = inr (rs, w2) →
  UploadApp V U G repo c perf w
  = let w3 := invalidate_if_published G p perf w2 in
    match rs with
    | [] => c_JSON StatusInternalServerError
              (error_body "no results found. Please check your files.") w3
    | ASpecificApp appData :: _ =>
        c_JSON StatusOK {[ "uploadResult" := AStr (Hex (ID appData)) ]} w3
    | _ :: _ => c_JSON StatusInternalServerError (error_body "Invalid result type") w3
    end.
Proof. intros Hv Hf Hup Hst. unfold UploadApp. by rewrite Hv, Hf, Hup, Hst. Qed.

(** A 200 response is written only at the end of a run in which every
    file was uploaded and recorded. *)
Lemma UploadApp_ok_inv (c : Request) (perf : bool) (w : World) (body : H) :
  w_written (UploadApp V U G repo c perf w) = w_written w ++ [(StatusOK, body)] →
  ∃ p form ls es w1 a rs w2,
    V c (w_db w) = Ok p ∧ req_form c = Ok form
    ∧ upload_files U p (default [] (File form !! "file")) [] [] w = inr (ls, es, w1)
    ∧ store_links repo p 0 ls es [] w1 = inr (ASpecificApp a :: rs, w2)
    ∧ body = {[ "uploadResult" := AStr (Hex (ID a)) ]}.
Proof.
  intros Hw.
  destruct (V c (w_db w)) as [p|e] eqn:Hv.
  2: { unfold UploadApp in Hw. rewrite Hv in Hw. simpl in Hw.
       by apply app_inv_head in Hw. }
  destruct (req_form c) as [form|e] eqn:Hf.
  2: { unfold UploadApp in Hw. rewrite Hv, Hf in Hw. simpl in Hw.
       by apply app_inv_head in Hw. }
  destruct (upload_files U p (default [] (File form !! "file")) [] [] w)
    as [w1|[[ls es] w1]] eqn:Hup.
  { unfold UploadApp in Hw. rewrite Hv, Hf, Hup in Hw.
    apply upload_files_inl in Hup as (_ & _ & Hwr). rewrite Hwr in Hw.
    by apply app_inv_head in Hw. }
  destruct (store_links repo p 0 ls es [] w1) as [w2|[rs w2]] eqn:Hst.
  { unfold UploadApp in Hw. rewrite Hv, Hf, Hup, Hst in Hw.
    apply upload_files_inr in Hup as (_ & _ & Hwr & _).
    apply store_links_inl in Hst as (_ & _ & e & Hwr'). rewrite Hwr', Hwr in Hw.
    by apply app_inv_head in Hw. }
  rewrite (UploadApp_reached c perf w p form ls es w1 rs w2 Hv Hf Hup Hst) in Hw.
  pose proof (invalidate_if_published_frame p perf w2) as (_ & _ & Hwr3).
  pose proof (upload_files_inr _ _ _ _ _ _ _ _ Hup) as (_ & _ & Hwr & _).
  pose proof (store_links_inr _ _ _ _ _ _ _ _ Hst) as (_ & _ & Hwr' & _).
  cbn zeta in Hw.
  destruct rs as [|[| | | |a|] rs]; simpl in Hw;
    rewrite Hwr3, Hwr', Hwr in Hw; apply app_inv_head in Hw; try done.
  injection Hw as <-. by exists p, form, ls, es, w1, a, rs, w2.
Qed.

End upload_app_facts.

Section upload_app_cache.
Variable V : Request → Mongo → Result H.
Variable U : H → utils.FileHeader → S3 → Result (string * string) * S3.
Variable G : option Any → bool.
Variable repo : AppRepository.

Lemma UploadApp_cache_independent (c : Request) (perf : bool) (w : World) :
  w_written (UploadApp V U G repo c perf w) = w_written (UploadApp V U G repo c false w)
  ∧ w_db (UploadApp V U G repo c perf w) = w_db (UploadApp V U G repo c false w)
  ∧ w_s3 (UploadApp V U G repo c perf w) = w_s3 (UploadApp V U G repo c false w).
Proof.
  unfold UploadApp.
  destruct (V c (w_db w)) as [p|e]; [|done].
  destruct (req_form c) as [form|e]; [|done].
  destruct (upload_files U p _ [] [] w) as [w1|[[ls es] w1]]; [done|].
  destruct (store_links repo p 0 ls es [] w1) as [w2|[rs w2]]; [done|].
  pose proof (invalidate_if_published_frame G p perf w2) as (Hdb & Hs3 & Hwr).
  pose proof (invalidate_if_published_frame G p false w2) as (Hdb' & Hs3' & Hwr').
  destruct rs as [|[| | | |a|] rs]; simpl; by rewrite ?Hdb, ?Hs3, ?Hwr, ?Hdb', ?Hs3', ?Hwr'.
Qed.

Lemma invalidate_if_published_on (p : H) (w : World) (rdb : Redis) :
  w_rdb w = Some rdb → G (p !! "publish") = true →
  let r := InvalidateCache p rdb
             (logrus_Debug ("Uploaded app has publish: " +:+ "true"
                            +:+ ", invalidation of redis cache is starting.") w) in
  w_rdb (invalidate_if_published G p true w) = Some r.1.2
  ∧ (∀ x, x ∈ w_log r.2 → x ∈ w_log (invalidate_if_published G p true w))
  ∧ (∀ e, r.1.1 = Some e →
       (ErrorLevel, "Error invalidating cache:" +:+ e)
         ∈ w_log (invalidate_if_published G p true w)).
Proof.
  intros Hr Hpub r. unfold invalidate_if_published. rewrite Hr, Hpub.
  fold r. destruct r as [[err rdb'] w']. simpl. destruct err as [e|]; simpl.
  - split; [done|]. split.
    + intros x Hx. rewrite elem_of_app. by left.
    + intros e' [= <-]. rewrite elem_of_app, list_elem_of_singleton. by right.
  - done.
Qed.

(** C6: with the cache active, a successful upload with [publish] set
    removes every cache key that matches
    [app_name=<a>&version=*&channel=<c>&platform=*&arch=*] (and no other
    key); with [publish] unset the cache is left alone; and whatever the
    cache does, the response, the metadata and the blobs are those of the
    run without the cache, a failure of the listing or of a deletion
    leaving an error line in the log. *)
Theorem C6_cache_invalidation (c : Request) (w : World) (p : H) (rdb : Redis)
    (body : H) :
  V c (w_db w) = Ok p →
  w_rdb w = Some rdb →
  let pattern :=
    "app_name=" +:+ as_string (p !! "app_name") +:+ "&version=*&channel="
    +:+ as_string (p !! "channel") +:+ "&platform=*&arch=*" in
  let w' := UploadApp V U G repo c true w in
  let succeeded := w_written w' = w_written w ++ [(StatusOK, body)] in
  (succeeded → G (p !! "publish") = true →
   rdb_keys_fault rdb = None → (∀ k, rdb_del_fault rdb k = None) →
   ∃ rdb', w_rdb w' = Some rdb'
     ∧ ∀ k, rdb_data rdb' !! k
            = if rdb_match rdb pattern k then None else rdb_data rdb !! k)
  ∧ (G (p !! "publish") = false → w_rdb w' = w_rdb w)
  ∧ (w_written w' = w_written (UploadApp V U G repo c false w)
     ∧ w_db w' = w_db (UploadApp V U G repo c false w)
     ∧ w_s3 w' = w_s3 (UploadApp V U G repo c false w))
  ∧ (succeeded → G (p !! "publish") = true →
     ∀ e, rdb_keys_fault rdb = Some e →
       (ErrorLevel,
        "Error invalidating cache:" +:+ "failed to fetch keys for invalidation: " +:+ e)
         ∈ w_log w')
  ∧ (succeeded → G (p !! "publish") = true → rdb_keys_fault rdb = None →
     ∀ k e, rdb_match rdb pattern k = true → is_Some (rdb_data rdb !! k) →
       rdb_del_fault rdb k = Some e →
       (ErrorLevel, "Failed to invalidate key: " +:+ k +:+ ", error: " +:+ e)
         ∈ w_log w').
Proof.
  intros Hv Hr pattern w' succeeded.
  assert (pattern = pattern_of p) as Hpattern by reflexivity.
  clearbody pattern. subst pattern.
  assert (succeeded → G (p !! "publish") = true →
          ∃ w2, w_rdb w2 = Some rdb
                ∧ w_rdb w' = w_rdb (invalidate_if_published G p true w2)
                ∧ w_log w' = w_log (invalidate_if_published G p true w2)) as Hreach.
  { intros Hok Hpub.
    destruct (UploadApp_ok_inv V U G repo c true w body Hok)
      as (p' & form & ls & es & w1 & a & rs & w2 & Hv' & Hf & Hup & Hst & _).
    assert (p' = p) as -> by congruence.
    exists w2. apply upload_files_inr in Hup as Hup'. destruct Hup' as (_ & Hr1 & _).
    apply store_links_inr in Hst as Hst'. destruct Hst' as (_ & Hr2 & _).
    split; [congruence|]. unfold w'.
    by rewrite (UploadApp_reached V U G repo c true w p form ls es w1 _ w2 Hv Hf Hup Hst). }
  split; [|split; [|split; [|split]]].
  - intros Hok Hpub Hkf Hdf. destruct (Hreach Hok Hpub) as (w2 & Hr2 & Hrdb & _).
    destruct (invalidate_if_published_on p w2 rdb Hr2 Hpub) as (Hr3 & _).
    eexists. split; [by rewrite Hrdb, Hr3|].
    intros k. rewrite InvalidateCache_data by done.
    destruct (rdb_match rdb (pattern_of p) k) eqn:Hm;
      destruct (decide (_ ∧ _)) as [[Hm' _]|Hn]; try done.
    exfalso. by apply Hn.
  - intros Hpub. unfold w', UploadApp. rewrite Hv.
    destruct (req_form c) as [form|e]; [|done].
    destruct (upload_files U p _ [] [] w) as [w1|[[ls es] w1]] eqn:Hup.
    { by apply upload_files_inl in Hup as (_ & ? & _). }
    apply upload_files_inr in Hup as (_ & Hr1 & _).
    destruct (store_links repo p 0 ls es [] w1) as [w2|[rs w2]] eqn:Hst.
    { apply store_links_inl in Hst as (_ & Hr2 & _). simpl. by rewrite Hr2. }
    apply store_links_inr in Hst as (_ & Hr2 & _).
    pose proof (invalidate_if_published_off G p true w2 Hpub) as Hr3.
    destruct rs as [|[| | | |a|] rs]; change (w_rdb (c_JSON ?x ?y ?z)) with (w_rdb z);
      by rewrite Hr3, Hr2.
  - apply UploadApp_cache_independent.
  - intros Hok Hpub e Hkf. destruct (Hreach Hok Hpub) as (w2 & Hr2 & _ & Hlog).
    destruct (invalidate_if_published_on p w2 rdb Hr2 Hpub) as (_ & _ & Herr).
    rewrite Hlog. apply Herr. by rewrite (InvalidateCache_keys_fault p rdb _ e Hkf).
  - intros Hok Hpub Hkf k e Hm Hk Hdf.
    destruct (Hreach Hok Hpub) as (w2 & Hr2 & _ & Hlog).
    destruct (invalidate_if_published_on p w2 rdb Hr2 Hpub) as (_ & Hmono & _).
    rewrite Hlog. apply Hmono. by apply InvalidateCache_del_logged.
Qed.

(** C7, on the code: the body of every 200 response of the upload handler
    is the one-entry object [{"uploadResult": <id>}]; it has no key
    [uploadResult.Uploaded]. *)
Theorem C7_upload_response_key (c : Request) (perf : bool) (w : World) (body : H) :
  w_written (UploadApp V U G repo c perf w) = w_written w ++ [(StatusOK, body)] →
  body !! "uploadResult.Uploaded" = None
  ∧ ∃ a, body = {[ "uploadResult" := AStr (Hex (ID a)) ]}.
Proof.
  intros Hok.
  destruct (UploadApp_ok_inv V U G repo c perf w body Hok)
    as (p & form & ls & es & w1 & a & rs & w2 & _ & _ & _ & _ & ->).
  split; [by apply lookup_singleton_ne|by exists a].
Qed.

(** A validated upload without file parts: no blob and no metadata is
    written and the response is the 500 of the empty result list, but
    the invalidation block has run before that response. *)
Lemma UploadApp_no_files (c : Request) (perf : bool) (w : World) (p : H)
    (form : MultipartForm) :
  V c (w_db w) = Ok p → req_form c = Ok form →
  default [] (File form !! "file") = [] →
  UploadApp V U G repo c perf w
  = c_JSON StatusInternalServerError
      (error_body "no results found. Please check your files.")
      (invalidate_if_published G p perf w).
Proof. intros Hv Hf Hnil. unfold UploadApp. by rewrite Hv, Hf, Hnil. Qed.

(** C10, amended: a validated upload with no part named [file] writes no
    blob and no metadata and is answered with status 500 and
    [{"error": "no results found. Please check your files."}]; it leaves
    the cache alone when the cache is inactive or [publish] is unset. *)
Theorem C10_empty_upload (c : Request) (perf : bool) (w : World) (p : H)
    (form : MultipartForm) :
  V c (w_db w) = Ok p → req_form c = Ok form →
  default [] (File form !! "file") = [] →
  let w' := UploadApp V U G repo c perf w in
  w_s3 w' = w_s3 w ∧ w_db w' = w_db w
  ∧ w_written w'
    = w_written w
      ++ [(500%Z, {[ "error" := AStr "no results found. Please check your files." ]})]
  ∧ (perf = false ∨ w_rdb w = None ∨ G (p !! "publish") = false →
     w_rdb w' = w_rdb w).
Proof.
  intros Hv Hf Hnil w'. unfold w'. rewrite (UploadApp_no_files c perf w p form Hv Hf Hnil).
  pose proof (invalidate_if_published_frame G p perf w) as (Hdb & Hs3 & Hwr).
  split; [done|]. split; [done|]. split; [simpl; by rewrite Hwr|].
  change (w_rdb (c_JSON ?x ?y ?z)) with (w_rdb z).
  intros [->|[Hnone|Hpub]].
  - done.
  - unfold invalidate_if_published. rewrite Hnone. by destruct perf.
  - by apply invalidate_if_published_off.
Qed.

End upload_app_cache.

(** ** The upload handler on the scenario *)

Lemma C6_cache_invalidation_witness :
  let c := scenario.upload_request (scenario.full_payload "0.0.4.137" true)
             [scenario.testapp_dmg] in
  let w := scenario.world scenario.db1 (Some scenario.cache1) in
  let p := scenario.full_payload "0.0.4.137" true in
  let w' := UploadApp validator.ValidateParams scenario.UploadToS3
              validator.GetBoolParam mongod.repository c true w in
  let nightly :=
    "app_name=testapp&version=0.0.1.137&channel=nightly&platform=universalPlatform&arch=universalArch" in
  let stable :=
    "app_name=testapp&version=0.0.1.137&channel=stable&platform=universalPlatform&arch=universalArch" in
  validator.ValidateParams c (w_db w) = Ok p
  ∧ w_rdb w = Some scenario.cache1
  ∧ w_written w'
    = w_written w ++ [(StatusOK, {[ "uploadResult" := AStr "000000000000000000000004" ]})]
  ∧ rdb_data scenario.cache1 !! nightly = Some "{}"
  ∧ rdb_data scenario.cache1 !! stable = Some "{}"
  ∧ ∃ rdb', w_rdb w' = Some rdb'
      ∧ rdb_data rdb' !! nightly = None
      ∧ rdb_data rdb' !! stable = Some "{}"
      ∧ ∀ k, rdb_data rdb' !! k
             = if rdb_match scenario.cache1
                    "app_name=testapp&version=*&channel=nightly&platform=*&arch=*" k
               then None else rdb_data scenario.cache1 !! k.
Proof.
  intros c w p w' nightly stable.
  assert (validator.ValidateParams c (w_db w) = Ok p) as Hv by (vm_compute; reflexivity).
  assert (w_rdb w = Some scenario.cache1) as Hr by reflexivity.
  assert (w_written w'
          = w_written w
            ++ [(StatusOK, {[ "uploadResult" := AStr "000000000000000000000004" ]})])
    as Hok by (vm_compute; reflexivity).
  split; [exact Hv|]. split; [exact Hr|]. split; [exact Hok|].
  split; [vm_compute; reflexivity|]. split; [vm_compute; reflexivity|].
  destruct (proj1 (C6_cache_invalidation validator.ValidateParams scenario.UploadToS3
                     validator.GetBoolParam mongod.repository c w p scenario.cache1
                     _ Hv Hr)
                  Hok eq_refl eq_refl (λ _, eq_refl)) as (rdb' & Hrdb & Hall).
  exists rdb'. split; [exact Hrdb|].
  split; [rewrite Hall; vm_compute; reflexivity|].
  split; [rewrite Hall; vm_compute; reflexivity|].
  exact Hall.
Defined.

Lemma C7_upload_response_key_witness :
  let c := scenario.upload_request
             {[ "app_name" := AStr "testapp"; "version" := AStr "0.0.1.137" ]}
             [scenario.license] in
  let w := scenario.world scenario.db0 None in
  let body : H := {[ "uploadResult" := AStr "000000000000000000000001" ]} in
  w_written (UploadApp validator.ValidateParams scenario.UploadToS3
               validator.GetBoolParam mongod.repository c true w)
  = w_written w ++ [(StatusOK, body)]
  ∧ body !! "uploadResult.Uploaded" = None.
Proof.
  intros c w body.
  assert (w_written (UploadApp validator.ValidateParams scenario.UploadToS3
                       validator.GetBoolParam mongod.repository c true w)
          = w_written w ++ [(StatusOK, body)]) as Hok by (vm_compute; reflexivity).
  split; [exact Hok|].
  exact (proj1 (C7_upload_response_key validator.ValidateParams scenario.UploadToS3
                  validator.GetBoolParam mongod.repository c true w body Hok)).
Defined.

Lemma C10_empty_upload_witness :
  let c := scenario.upload_request (scenario.full_payload "0.0.4.137" false) [] in
  let w := scenario.world scenario.db1 (Some scenario.cache1) in
  let w' := UploadApp validator.ValidateParams scenario.UploadToS3
              validator.GetBoolParam mongod.repository c true w in
  validator.ValidateParams c (w_db w) = Ok (scenario.full_payload "0.0.4.137" false)
  ∧ w_s3 w' = w_s3 w ∧ w_db w' = w_db w
  ∧ w_written w'
    = [(500%Z, {[ "error" := AStr "no results found. Please check your files." ]})]
  ∧ w_rdb w' = w_rdb w.
Proof.
  intros c w w'.
  assert (validator.ValidateParams c (w_db w)
          = Ok (scenario.full_payload "0.0.4.137" false)) as Hv
    by (vm_compute; reflexivity).
  destruct (C10_empty_upload validator.ValidateParams scenario.UploadToS3
              validator.GetBoolParam mongod.repository c true w
              (scenario.full_payload "0.0.4.137" false) (mkForm {[ "file" := [] ]})
              Hv eq_refl eq_refl) as (Hs3 & Hdb & Hwr & Hrdb).
  split; [exact Hv|]. split; [exact Hs3|]. split; [exact Hdb|].
  split; [exact Hwr|]. apply Hrdb. right. right. reflexivity.
Defined.

(** C10, as stated, fails: a validated upload with [publish] set and no
    file part, cache active.  The response is the 500 of the empty result
    list and neither the blobs nor the metadata change, but the cache has
    changed: the cached answer for [testapp] on [nightly] is gone. *)
Lemma C10_cache_changed_without_files :
  let c := scenario.upload_request (scenario.full_payload "0.0.4.137" true) [] in
  let w := scenario.world scenario.db1 (Some scenario.cache1) in
  let w' := UploadApp validator.ValidateParams scenario.UploadToS3
              validator.GetBoolParam mongod.repository c true w in
  let nightly :=
    "app_name=testapp&version=0.0.1.137&channel=nightly&platform=universalPlatform&arch=universalArch" in
  validator.ValidateParams c (w_db w) = Ok (scenario.full_payload "0.0.4.137" true)
  ∧ w_written w'
    = [(500%Z, error_body "no results found. Please check your files.")]
  ∧ w_db w' = w_db w ∧ w_s3 w' = w_s3 w
  ∧ rdb_data scenario.cache1 !! nightly = Some "{}"
  ∧ (∃ rdb', w_rdb w' = Some rdb' ∧ rdb_data rdb' !! nightly = None)
  ∧ ¬ (w_rdb w' = w_rdb w).
Proof.
  intros c w w' nightly.
  assert (∃ rdb', w_rdb w' = Some rdb' ∧ rdb_data rdb' !! nightly = None) as Hgone.
  { eexists. split; [vm_compute; reflexivity|]. vm_compute. reflexivity. }
  split; [vm_compute; reflexivity|]. split; [vm_compute; reflexivity|].
  split; [vm_compute; reflexivity|]. split; [vm_compute; reflexivity|].
  split; [vm_compute; reflexivity|]. split; [exact Hgone|].
  destruct Hgone as (rdb' & Hr' & Hk). intros Heq. rewrite Hr' in Heq.
  injection Heq as ->. vm_compute in Hk. discriminate Hk.
Qed.

(** ** The check handler *)

Section find_latest_version_facts.
Variable V : Request → Mongo → Result H.
Variable repo : AppRepository.

Lemma update_url_not_available (ext : string) :
  "update_url_" +:+ ext ≠ "update_available".
Proof.
  intros Heq. apply (f_equal (λ s, GoStrings.HasPrefix s "update_url_")) in Heq.
  vm_compute in Heq. discriminate Heq.
Qed.

Lemma update_url_not_error (ext : string) : "update_url_" +:+ ext ≠ "error".
Proof.
  intros Heq. apply (f_equal (λ s, GoStrings.HasPrefix s "update_url_")) in Heq.
  vm_compute in Heq. discriminate Heq.
Qed.

Lemma add_update_url_available (response : H) (artifacts : list Artifact) :
  foldl add_update_url response artifacts !! "update_available"
  = response !! "update_available".
Proof.
  revert response. induction artifacts as [|a l IH]; intros response; [done|].
  simpl. rewrite IH. unfold add_update_url.
  destruct (negb _ && negb _); [|done].
  apply lookup_insert_ne, update_url_not_available.
Qed.

(** C2, on the code: no response of the check handler announces
    [update_available: false] together with an [update_url_<ext>] entry:
    the branch for "no newer version" answers with
    [{"update_available": false, "error": "Not found"}] whatever artifacts
    the repository returned. *)
Theorem C2_no_urls_without_update (c : Request) (w : World) (code : Z) (body : H) :
  w_written (FindLatestVersion V repo c w) = w_written w ++ [(code, body)] →
  body !! "update_available" = Some (ABool false) →
  body = <[ "update_available" := ABool false ]> {[ "error" := AStr "Not found" ]}
  ∧ ∀ ext, body !! ("update_url_" +:+ ext) = None.
Proof.
  intros Hw Hua.
  assert (body = <[ "update_available" := ABool false ]> {[ "error" := AStr "Not found" ]})
    as ->.
  { unfold FindLatestVersion in Hw.
    destruct (V c (w_db w)) as [p|e].
    2: { simpl in Hw. apply app_inv_head in Hw. injection Hw as _ <-. done. }
    destruct (CheckLatestVersion repo _ _ _ _ _ _) as [r|e].
    2: { simpl in Hw. apply app_inv_head in Hw. injection Hw as _ <-. done. }
    destruct (Found r); simpl in Hw.
    - apply app_inv_head in Hw. injection Hw as _ <-.
      rewrite add_update_url_available in Hua. done.
    - case_bool_decide; simpl in Hw; apply app_inv_head in Hw;
        by injection Hw as _ <-. }
  split; [done|]. intros ext.
  rewrite lookup_insert_ne by (apply not_eq_sym, update_url_not_available).
  apply lookup_singleton_ne, not_eq_sym, update_url_not_error.
Qed.

Lemma FindLatestVersion_error (c : Request) (w : World) (p : H) (e : Error) :
  V c (w_db w) = Ok p →
  CheckLatestVersion repo (Query c "app_name") (Query c "version")
    (Query c "channel") (Query c "platform") (Query c "arch") (w_db w) = Err e →
  FindLatestVersion V repo c w
  = c_JSON StatusInternalServerError (error_body e) (logrus_Error e w).
Proof. intros Hv He. unfold FindLatestVersion. by rewrite Hv, He. Qed.

End find_latest_version_facts.

Lemma C2_no_urls_without_update_witness :
  let c := scenario.check_request "0.0.2.137" in
  let w := scenario.world scenario.db1 None in
  let body : H :=
    <[ "update_available" := ABool false ]> {[ "error" := AStr "Not found" ]} in
  mongod.CheckLatestVersion "testapp" "0.0.2.137" "nightly" "universalPlatform"
    "universalArch" scenario.db1
  = Ok (mkCheckResult false [scenario.dmg "0.0.2.137"])
  ∧ w_written (FindLatestVersion validator.ValidateParams mongod.repository c w)
    = w_written w ++ [(200%Z, body)]
  ∧ body !! "update_available" = Some (ABool false)
  ∧ body !! ("update_url_" +:+ "dmg") = None.
Proof.
  intros c w body.
  assert (w_written (FindLatestVersion validator.ValidateParams mongod.repository c w)
          = w_written w ++ [(200%Z, body)]) as Hw by (vm_compute; reflexivity).
  assert (body !! "update_available" = Some (ABool false)) as Hua
    by (vm_compute; reflexivity).
  split; [vm_compute; reflexivity|]. split; [exact Hw|]. split; [exact Hua|].
  exact (proj2 (C2_no_urls_without_update validator.ValidateParams mongod.repository
                  c w 200%Z body Hw Hua) "dmg").
Defined.

(** ** The search and delete handlers *)

Section store_errors.
Variable repo : AppRepository.
Variable O : string → Result ObjectID.
Variable env : Viper.

Lemma DeleteFromS3_written (key : string) (w : World) :
  w_written (utils.DeleteFromS3 key env w) = w_written w
  ∨ w_written (utils.DeleteFromS3 key env w)
    = w_written w ++ [(StatusInternalServerError, error_body "failed to delete file from S3")].
Proof.
  unfold utils.DeleteFromS3.
  destruct (DeleteObject _ key (w_s3 w)) as [[e|] s3']; simpl; auto.
Qed.

Lemma purge_written (links : list string) (w : World) :
  ∃ ws,
    w_written
      (foldl (λ w link,
                utils.DeleteFromS3
                  (GoStrings.TrimPrefix link (GetString env "S3_ENDPOINT")) env w)
         w links)
    = w_written w ++ ws
    ∧ ∀ x, x ∈ ws →
        x = (StatusInternalServerError, error_body "failed to delete file from S3").
Proof.
  revert w. induction links as [|l links IH]; intros w.
  - exists []. split; [by rewrite app_nil_r|]. intros x Hx. by apply elem_of_nil in Hx.
  - simpl. destruct (IH (utils.DeleteFromS3
                           (GoStrings.TrimPrefix l (GetString env "S3_ENDPOINT")) env w))
      as (ws & -> & Hws).
    destruct (DeleteFromS3_written
                (GoStrings.TrimPrefix l (GetString env "S3_ENDPOINT")) w) as [->| ->].
    + by exists ws.
    + eexists (_ :: ws). split; [by rewrite <- app_assoc|].
      intros x [->|Hx]%elem_of_cons; [done|by apply Hws].
Qed.

(** C8, on the code: when the repository fails, the search handler and
    the release-delete handler log the error and answer 200; the error
    text is in no response body.  The search answers [{"apps": null}];
    the delete answers with the count it was handed, after at most the
    500 bodies of failed blob deletions. *)
Theorem C8_store_errors_answered_200 (c : Request) (w : World) (e : Error) :
  (repo_GetAppByName repo (Query c "app_name") (w_db w) = Err e →
   w_written (GetAppByName repo c w)
   = w_written w ++ [(StatusOK, {[ "apps" := ANil ]})]
   ∧ w_log (GetAppByName repo c w) = w_log w ++ [(ErrorLevel, e)])
  ∧ (∀ objID links result db',
       O (Query c "id") = Ok objID →
       repo_DeleteApp repo objID (w_db w) = ((links, result, Some e), db') →
       ∃ ws,
         w_written (DeleteApp repo O env c w)
         = w_written w ++ ws
           ++ [(StatusOK, {[ "deleteAppResult.DeletedCount" := result ]})]
         ∧ ∀ x, x ∈ ws →
             x = (StatusInternalServerError,
                  error_body "failed to delete file from S3")).
Proof.
  split.
  - intros He. unfold GetAppByName. by rewrite He.
  - intros objID links result db' Hid Hdel. unfold DeleteApp. rewrite Hid, Hdel.
    destruct (purge_written links (logrus_Error e (set_db db' w))) as (ws & Hws & Hall).
    exists ws. split; [|done]. simpl. rewrite Hws. simpl. by rewrite <- app_assoc.
Qed.

(** The sibling path: the dimension deletes of the same package answer
    500 when the repository fails. *)
Lemma deleteEntity_error (c : Request) (w : World) (objID : ObjectID)
    (e : Error) (db' : Mongo) :
  O (Query c "id") = Ok objID →
  repo_DeleteChannel repo objID (w_db w) = (Err e, db') →
  w_written (DeleteChannel repo O c w)
  = w_written w ++ [(StatusInternalServerError, error_body "failed to delete channel")].
Proof.
  intros Hid Hdel. unfold DeleteChannel, deleteEntity. rewrite Hid. simpl.
  by rewrite Hdel.
Qed.

End store_errors.

Lemma C8_store_errors_answered_200_witness :
  let repo := mongod.unreachable "server selection timeout" in
  let O := λ s, Ok (mkObjectID s) in
  let c := mkRequest {[ "app_name" := "testapp"; "id" := "000000000000000000000001" ]}
             None (Err "no form") in
  let w := scenario.world scenario.db1 None in
  repo_GetAppByName repo (Query c "app_name") (w_db w) = Err "server selection timeout"
  ∧ w_written (GetAppByName repo c w) = [(200%Z, {[ "apps" := ANil ]})]
  ∧ w_written (DeleteApp repo O scenario.env c w)
    = [(200%Z, {[ "deleteAppResult.DeletedCount" := ANil ]})].
Proof.
  intros repo O c w.
  pose proof (C8_store_errors_answered_200 repo O scenario.env c w
                "server selection timeout") as [Hsearch _].
  split; [reflexivity|]. split.
  - exact (proj1 (Hsearch eq_refl)).
  - vm_compute. reflexivity.
Defined.

(** ** The version order and the resolver *)

Section version_order.

Lemma compare_spec (v w : N * N * N * N) :
  CompareSpec (v = w) (version_before v w) (version_before w v) (version.compare v w).
Proof.
  destruct v as [[[a1 b1] c1] d1], w as [[[a2 b2] c2] d2].
  unfold version.compare, version_before.
  destruct (N.compare_spec a1 a2); [|constructor; lia..].
  destruct (N.compare_spec b1 b2); [|constructor; lia..].
  destruct (N.compare_spec c1 c2); [|constructor; lia..].
  destruct (N.compare_spec d1 d2); constructor; [congruence|lia..].
Qed.

Lemma version_before_irrefl (v : N * N * N * N) : ¬ version_before v v.
Proof. destruct v as [[[a b] c] d]. unfold version_before. lia. Qed.

Lemma version_before_trans (u v w : N * N * N * N) : version_before u v → version_before v w → version_before u w.
Proof.
  destruct u as [[[a1 b1] c1] d1], v as [[[a2 b2] c2] d2], w as [[[a3 b3] c3] d3].
  unfold version_before. lia.
Qed.

Lemma version_before_total (v w : N * N * N * N) : v = w ∨ version_before v w ∨ version_before w v.
Proof. destruct (compare_spec v w); auto. Qed.

Lemma compare_Lt (v w : N * N * N * N) : version.compare v w = Lt ↔ version_before v w.
Proof.
  destruct (compare_spec v w) as [->|Hlt|Hgt]; split; try done.
  - intros Hb. by apply version_before_irrefl in Hb.
  - intros Hb. destruct (version_before_irrefl v). by eapply version_before_trans.
Qed.

Lemma compare_Gt (v w : N * N * N * N) : version.compare v w = Gt ↔ version_before w v.
Proof.
  destruct (compare_spec v w) as [->|Hlt|Hgt]; split; try done.
  - intros Hb. by apply version_before_irrefl in Hb.
  - intros Hb. destruct (version_before_irrefl v). by eapply version_before_trans.
Qed.

(** The fold of [pick] ends on an element that nothing seen is newer
    than. *)
Lemma foldl_pick_max (l : list SpecificApp) (best : option SpecificApp) :
  match foldl mongod.pick best l with
  | None => best = None ∧ l = []
  | Some m =>
      (best = Some m ∨ m ∈ l)
      ∧ (∀ b, best = Some b → ¬ version_before (mongod.parsed m) (mongod.parsed b))
      ∧ ∀ r, r ∈ l → ¬ version_before (mongod.parsed m) (mongod.parsed r)
  end.
Proof.
  revert best. induction l as [|x l IH]; intros best.
  - destruct best as [b|]; simpl; [|done].
    split; [by left|]. split.
    + intros ? [= <-]. apply version_before_irrefl.
    + intros r Hr. by apply elem_of_nil in Hr.
  - simpl. specialize (IH (mongod.pick best x)).
    destruct (foldl mongod.pick (mongod.pick best x) l) as [m|].
    2: { destruct IH as [Hp _]. by destruct best as [b|]; simpl in Hp;
           [destruct (version.compare _ _) in Hp|]. }
    destruct IH as (Hm & Hbest & Hl).
    destruct best as [b|]; simpl in Hm, Hbest.
    + destruct (version.compare (mongod.parsed b) (mongod.parsed x)) eqn:Hc.
      * assert (mongod.parsed b = mongod.parsed x) as Heq
          by (by destruct (compare_spec (mongod.parsed b) (mongod.parsed x))).
        split; [destruct Hm as [[= <-]|Hm]; [by left|right; by right]|].
        split; [intros ? [= <-]; by apply Hbest|].
        intros r [->|Hr]%elem_of_cons; [|by apply Hl].
        rewrite <- Heq. by apply Hbest.
      * apply compare_Lt in Hc.
        split; [destruct Hm as [[= <-]|Hm]; right; [by left|by right]|].
        split.
        -- intros ? [= <-] Hb. apply (Hbest x eq_refl). by eapply version_before_trans.
        -- intros r [->|Hr]%elem_of_cons; [by apply Hbest|by apply Hl].
      * apply compare_Gt in Hc.
        split; [destruct Hm as [[= <-]|Hm]; [by left|right; by right]|].
        split; [intros ? [= <-]; by apply Hbest|].
        intros r [->|Hr]%elem_of_cons; [|by apply Hl].
        intros Hb. apply (Hbest b eq_refl). by eapply version_before_trans.
    + split; [destruct Hm as [[= <-]|Hm]; right; [by left|by right]|].
      split; [done|].
      intros r [->|Hr]%elem_of_cons; [by apply Hbest|by apply Hl].
Qed.

Lemma getLatestPublished_latest (db : Mongo) (app channel platform arch : string)
    (r : SpecificApp) :
  is_latest db app channel platform arch r →
  ∃ m, mongod.getLatestPublished db app channel platform arch = Some m
       ∧ mongod.parsed m = mongod.parsed r.
Proof.
  intros [Hr Hmax]. unfold mongod.getLatestPublished.
  pose proof (foldl_pick_max (mongod.candidates db app channel platform arch) None)
    as Hfold.
  destruct (foldl mongod.pick None _) as [m|].
  2: { destruct Hfold as [_ Hnil]. rewrite Hnil in Hr. by apply elem_of_nil in Hr. }
  destruct Hfold as ([?|Hm] & _ & Hl); [done|].
  exists m. split; [done|].
  destruct (version_before_total (mongod.parsed m) (mongod.parsed r)) as [?|[Hb|Hb]]; [done|..].
  - by destruct (Hl r Hr).
  - by destruct (Hmax m Hm).
Qed.

End version_order.

(** ** The check handler over the modelled repository *)

(** C1: a check whose version is strictly greater than the latest
    published version for the requested app, channel, platform and
    architecture is answered with status 500 and the one-entry body
    [{"error": "requested version <v> is newer than the latest version
    available"}]; the body has no [update_available]. *)
Theorem C1_newer_than_latest (V : Request → Mongo → Result H) (c : Request)
    (w : World) (p : H) (r : SpecificApp) (client : N * N * N * N) :
  V c (w_db w) = Ok p →
  is_latest (w_db w) (Query c "app_name") (Query c "channel")
    (Query c "platform") (Query c "arch") r →
  version.parse (Query c "version") = Some client →
  version_before (mongod.parsed r) client →
  let body : H :=
    {[ "error" := AStr ("requested version " +:+ Query c "version"
                        +:+ " is newer than the latest version available") ]} in
  w_written (FindLatestVersion V mongod.repository c w)
  = w_written w ++ [(500%Z, body)]
  ∧ body !! "update_available" = None.
Proof.
  intros Hv Hlatest Hparse Hnewer body.
  split; [|by apply lookup_singleton_ne].
  destruct (getLatestPublished_latest _ _ _ _ _ _ Hlatest) as (m & Hm & Heq).
  rewrite (FindLatestVersion_error V mongod.repository c w p
             (mongod.newer_than_latest (Query c "version")) Hv); [done|].
  simpl. unfold mongod.CheckLatestVersion. rewrite Hparse, Hm, Heq.
  by apply compare_Gt in Hnewer as ->.
Qed.

Lemma C1_newer_than_latest_witness :
  let c := scenario.check_request "0.0.3.137" in
  let w := scenario.world scenario.db1 None in
  let r := scenario.release "02" "0.0.2.137" "nightly" true in
  is_latest scenario.db1 "testapp" "nightly" "universalPlatform" "universalArch" r
  ∧ version.parse "0.0.3.137" = Some (0, 0, 3, 137)%N
  ∧ version_before (mongod.parsed r) (0, 0, 3, 137)%N
  ∧ w_written (FindLatestVersion validator.ValidateParams mongod.repository c w)
    = [(500%Z,
        {[ "error" := AStr "requested version 0.0.3.137 is newer than the latest version available" ]})].
Proof.
  intros c w r.
  assert (is_latest scenario.db1 "testapp" "nightly" "universalPlatform"
            "universalArch" r) as Hlatest.
  { split.
    - vm_compute. apply list_elem_of_further, list_elem_of_here.
    - intros r' Hr'. vm_compute in Hr'.
      apply elem_of_cons in Hr' as [->|Hr'];
        [|apply elem_of_cons in Hr' as [->|Hr']; [|by apply elem_of_nil in Hr']];
        rewrite <- compare_Lt; vm_compute; discriminate. }
  assert (version_before (mongod.parsed r) (0, 0, 3, 137)%N) as Hnewer
    by (apply compare_Lt; vm_compute; reflexivity).
  split; [exact Hlatest|]. split; [reflexivity|]. split; [exact Hnewer|].
  exact (proj1 (C1_newer_than_latest validator.ValidateParams c w
                  (AStr <$> req_query c) r (0, 0, 3, 137)%N
                  eq_refl Hlatest eq_refl Hnewer)).
Defined.

(** ** The upload handler over the modelled repository *)

Section duplicate_artifact.

Lemma find_same_release (l : list SpecificApp) (k : string * string * string)
    (r : SpecificApp) :
  NoDup (mongod.release_key <$> l) → r ∈ l → mongod.release_key r = k →
  List.find (mongod.same_release k) l = Some r.
Proof.
  induction l as [|x l IH]; intros Hnd Hr Hk.
  { by apply elem_of_nil in Hr. }
  rewrite fmap_cons in Hnd. apply NoDup_cons in Hnd as [Hx Hnd].
  simpl. unfold mongod.same_release at 1. case_bool_decide as Hxk.
  - apply elem_of_cons in Hr as [->|Hr]; [done|].
    destruct Hx. rewrite Hxk, <- Hk. by apply list_elem_of_fmap_2.
  - apply elem_of_cons in Hr as [->|Hr]; [done|]. by apply IH.
Qed.

Lemma find_same_release_key (l : list SpecificApp) (k : string * string * string)
    (r : SpecificApp) :
  List.find (mongod.same_release k) l = Some r → mongod.release_key r = k.
Proof.
  intros Hfind. apply List.find_some in Hfind as [_ Hk].
  unfold mongod.same_release in Hk. by case_bool_decide.
Qed.

Lemma find_same_release_none (l : list SpecificApp) (k : string * string * string) :
  List.find (mongod.same_release k) l = None → k ∉ mongod.release_key <$> l.
Proof.
  intros Hfind (x & -> & Hx)%list_elem_of_fmap.
  apply list_elem_of_In in Hx.
  pose proof (List.find_none _ _ Hfind x Hx) as Hk.
  unfold mongod.same_release in Hk. by case_bool_decide.
Qed.

Lemma Upload_duplicate (p : H) (lnk ext : string) (db : Mongo) :
  releases_unique db →
  artifact_present db (as_string (p !! "app_name")) (as_string (p !! "version"))
    (as_string (p !! "channel")) (as_string (p !! "platform"))
    (as_string (p !! "arch")) ext →
  mongod.Upload p lnk ext db = (Err mongod.duplicate_artifact, db).
Proof.
  intros Hnd (r & a & Hr & Hk & Ha & Hak). unfold mongod.Upload.
  rewrite (find_same_release _ _ r Hnd Hr Hk).
  assert (existsb (mongod.same_artifact
                     (as_string (p !! "platform"), as_string (p !! "arch"), ext))
            (Artifacts r) = true) as ->; [|done].
  apply List.existsb_exists. exists a. split; [by apply list_elem_of_In|].
  unfold mongod.same_artifact. by apply bool_decide_eq_true_2.
Qed.

Lemma Upload_unique (p : H) (lnk ext : string) (db : Mongo) :
  releases_unique db → releases_unique (mongod.Upload p lnk ext db).2.
Proof.
  intros Hnd. unfold mongod.Upload.
  destruct (List.find _ (db_releases db)) as [r|] eqn:Hfind.
  - destruct (existsb _ (Artifacts r)); [done|].
    unfold releases_unique. simpl. rewrite <- list_fmap_compose.
    erewrite list_fmap_ext; [exact Hnd|].
    intros i x _. simpl. unfold mongod.same_release. case_bool_decide as Hx; [|done].
    rewrite Hx. by apply find_same_release_key in Hfind.
  - unfold releases_unique. simpl. rewrite fmap_app. apply NoDup_app.
    split; [done|]. split; [|apply NoDup_singleton].
    intros k Hk ->%list_elem_of_singleton.
    by apply find_same_release_none in Hfind.
Qed.

Lemma store_links_unique (p : H) (i : nat) (ls es : list string) (rs : list Any)
    (w : World) (rs' : list Any) (w' : World) :
  releases_unique (w_db w) →
  store_links mongod.repository p i ls es rs w = inr (rs', w') →
  releases_unique (w_db w').
Proof.
  revert i rs w. induction ls as [|l ls IH]; intros i rs w Hnd Hst.
  - by injection Hst as _ <-.
  - simpl in Hst. pose proof (Upload_unique p l (default "" (es !! i)) (w_db w) Hnd) as Hnd'.
    destruct (mongod.Upload p l (default "" (es !! i)) (w_db w)) as [[r|e] db']; [|done].
    by apply IH in Hst.
Qed.

Lemma store_links_app (repo : AppRepository) (p : H) (i : nat)
    (pre rest es : list string) (rs : list Any) (w : World) :
  store_links repo p i (pre ++ rest) es rs w
  = match store_links repo p i pre es rs w with
    | inl w' => inl w'
    | inr (rs', w') => store_links repo p (i + length pre) rest es rs' w'
    end.
Proof.
  revert i rs w. induction pre as [|l pre IH]; intros i rs w.
  - simpl. by rewrite Nat.add_0_r.
  - simpl. destruct (Upload repo p l (default "" (es !! i)) (w_db w)) as [[r|e] db'];
      [|done].
    rewrite IH. by rewrite Nat.add_succ_r.
Qed.

End duplicate_artifact.

(** C3: an upload whose [(app_name, version, channel, platform, arch,
    package)] is already in the artifact store is answered with status
    500 and [{"error": "app with this name, version, and extension
    already exists"}], and the metadata store stays as it was when that
    file's turn came: as the request found it, when it is the first (or
    only) file of the request. *)
Theorem C3_duplicate_artifact (V : Request → Mongo → Result H)
    (U : H → utils.FileHeader → S3 → Result (string * string) * S3)
    (G : option Any → bool) (c : Request) (perf : bool) (w : World) (p : H)
    (form : MultipartForm) (pre post es : list string) (lnk : string)
    (w1 : World) (rs : list Any) (w2 : World) :
  releases_unique (w_db w) →
  V c (w_db w) = Ok p → req_form c = Ok form →
  upload_files U p (default [] (File form !! "file")) [] [] w
  = inr (pre ++ lnk :: post, es, w1) →
  store_links mongod.repository p 0 pre es [] w1 = inr (rs, w2) →
  artifact_present (w_db w2) (as_string (p !! "app_name"))
    (as_string (p !! "version")) (as_string (p !! "channel"))
    (as_string (p !! "platform")) (as_string (p !! "arch"))
    (default "" (es !! length pre)) →
  let w' := UploadApp V U G mongod.repository c perf w in
  w_written w'
  = w_written w
    ++ [(500%Z,
         {[ "error" := AStr "app with this name, version, and extension already exists" ]})]
  ∧ w_db w' = w_db w2
  ∧ (pre = [] → w_db w' = w_db w).
Proof.
  intros Hnd Hv Hf Hup Hpre Hdup w'.
  pose proof (upload_files_inr _ _ _ _ _ _ _ _ _ Hup) as (Hdb1 & _ & Hwr1 & _).
  pose proof (store_links_inr _ _ _ _ _ _ _ _ _ Hpre) as (_ & _ & Hwr2 & _).
  assert (releases_unique (w_db w2)) as Hnd2.
  { eapply store_links_unique; [|exact Hpre]. by rewrite Hdb1. }
  assert (w' = c_JSON StatusInternalServerError (error_body mongod.duplicate_artifact)
                 (logrus_Error mongod.duplicate_artifact (set_db (w_db w2) w2)))
    as ->.
  { unfold w', UploadApp. rewrite Hv, Hf, Hup, store_links_app, Hpre. simpl.
    by rewrite (Upload_duplicate p lnk _ (w_db w2) Hnd2 Hdup). }
  split; [simpl; by rewrite Hwr2, Hwr1|]. split; [done|].
  intros ->. simpl in Hpre. injection Hpre as _ <-. by rewrite <- Hdb1.
Qed.

Lemma C3_duplicate_artifact_witness :
  let c := scenario.upload_request (scenario.full_payload "0.0.1.137" true)
             [scenario.testapp_dmg] in
  let w := scenario.world scenario.db1 None in
  let w' := UploadApp validator.ValidateParams scenario.UploadToS3
              validator.GetBoolParam mongod.repository c true w in
  releases_unique scenario.db1
  ∧ artifact_present scenario.db1 "testapp" "0.0.1.137" "nightly"
      "universalPlatform" "universalArch" ".dmg"
  ∧ w_written w'
    = [(500%Z,
        {[ "error" := AStr "app with this name, version, and extension already exists" ]})]
  ∧ w_db w' = scenario.db1.
Proof.
  intros c w w'.
  assert (releases_unique scenario.db1) as Hnd.
  { unfold releases_unique. apply (bool_decide_unpack _). vm_compute. exact I. }
  assert (artifact_present scenario.db1 "testapp" "0.0.1.137" "nightly"
            "universalPlatform" "universalArch" ".dmg") as Hdup.
  { exists (scenario.release "01" "0.0.1.137" "nightly" true),
      (scenario.dmg "0.0.1.137").
    split; [apply list_elem_of_here|]. split; [reflexivity|].
    split; [apply list_elem_of_here|reflexivity]. }
  split; [exact Hnd|]. split; [exact Hdup|].
  pose proof (C3_duplicate_artifact validator.ValidateParams scenario.UploadToS3
                validator.GetBoolParam c true w
                (scenario.full_payload "0.0.1.137" true)
                (mkForm {[ "file" := [scenario.testapp_dmg] ]})
                [] [] [".dmg"] "https://s3.example/testapp/testapp-0.0.1.137.dmg"
                (set_s3 (PutObject "bucket" "testapp/testapp-0.0.1.137.dmg"
                           (Some "dmg") scenario.s3_0).2 w)
                []
                (set_s3 (PutObject "bucket" "testapp/testapp-0.0.1.137.dmg"
                           (Some "dmg") scenario.s3_0).2 w)
                Hnd) as Hthm.
  destruct Hthm as (Hwr & _ & Hdb); [vm_compute; reflexivity|reflexivity
    |vm_compute; reflexivity|reflexivity|exact Hdup|].
  split; [exact Hwr|]. exact (Hdb eq_refl).
Defined.

(** ** The dimension gate *)

Section dimension_gate.

Lemma check_dimension_ok (db : Mongo) (params : H) (d : Dimension) :
  dimension_ok db params d → validator.check_dimension db params d = None.
Proof.
  unfold dimension_ok, validator.check_dimension.
  destruct (param params (dim_key d)) as [name|].
  - intros Hin. by rewrite bool_decide_eq_true_2.
  - by intros ->.
Qed.

Lemma param_omitted (params : H) (key : string) :
  params !! key = None → param params key = None.
Proof. intros Hk. unfold param. by rewrite Hk. Qed.

Lemma check_dimension_required (db : Mongo) (params : H) (d : Dimension) :
  params !! dim_key d = None → dim_records db d ≠ [] →
  validator.check_dimension db params d = Some (dimension_required d).
Proof.
  intros Hk Hrec. unfold validator.check_dimension. rewrite (param_omitted _ _ Hk).
  rewrite bool_decide_eq_true_2; [done|]. destruct (dim_records db d); [done|simpl; lia].
Qed.

Lemma check_dimension_free (db : Mongo) (params : H) (d : Dimension) :
  params !! dim_key d = None → dim_records db d = [] →
  validator.check_dimension db params d = None.
Proof.
  intros Hk Hrec. unfold validator.check_dimension.
  by rewrite (param_omitted _ _ Hk), Hrec.
Qed.

Lemma checks_app_and_version (c : Request) (db : Mongo) (data : H) :
  req_data c = Some data → app_and_version_ok db data →
  validator.check_app_name c db data = None ∧ validator.check_version data = None.
Proof.
  intros Hdata [(name & Hname & Hvalid & Hin) (v & Hv & Hvalid')].
  unfold validator.check_app_name, validator.check_version, validator.is_upload.
  rewrite Hname, Hv, Hvalid, Hvalid', Hdata. simpl.
  by rewrite bool_decide_eq_true_2.
Qed.

Lemma ValidateParams_gate (c : Request) (db : Mongo) (data : H) (d : Dimension) :
  req_data c = Some data → app_and_version_ok db data →
  (∀ d', d' ≠ d → dimension_ok db data d') →
  data !! dim_key d = None →
  validator.ValidateParams c db
  = match dim_records db d with
    | [] => Ok data
    | _ => Err (dimension_required d)
    end.
Proof.
  intros Hdata Hav Hothers Hk.
  destruct (checks_app_and_version c db data Hdata Hav) as [Happ Hver].
  unfold validator.ValidateParams, validator.incoming. rewrite Hdata.
  cbn [validator.first_error]. rewrite Happ, Hver.
  assert (validator.check_dimension db data d
          = match dim_records db d with
            | [] => None
            | _ => Some (dimension_required d)
            end) as Hd.
  { destruct (dim_records db d) eqn:Hrec.
    - by apply check_dimension_free.
    - apply check_dimension_required; [done|by rewrite Hrec]. }
  destruct d; rewrite Hd;
    repeat match goal with
           | |- context [validator.check_dimension db data ?d'] =>
               rewrite (check_dimension_ok db data d') by (by apply Hothers)
           end;
    by match goal with |- context [dim_records db ?d] => destruct (dim_records db d) end.
Qed.

End dimension_gate.

(** C4: with at least one Channel record, an upload that leaves out
    [channel] is answered 400 with [{"error": "you have a created
    channels, setting channel is required"}] and neither the blobs nor
    the metadata change; with no Channel record the validator lets it
    through, and the upload is answered 200 once its files are stored and
    recorded.  The same holds for Platform and Architecture. *)
Theorem C4_dimension_gate
    (U : H → utils.FileHeader → S3 → Result (string * string) * S3)
    (G : option Any → bool) (repo : AppRepository) (c : Request) (perf : bool)
    (w : World) (data : H) (d : Dimension) :
  req_data c = Some data →
  app_and_version_ok (w_db w) data →
  (∀ d', d' ≠ d → dimension_ok (w_db w) data d') →
  data !! dim_key d = None →
  let w' := UploadApp validator.ValidateParams U G repo c perf w in
  (dim_records (w_db w) d ≠ [] →
   w_written w' = w_written w ++ [(400%Z, {[ "error" := AStr (dimension_required d) ]})]
   ∧ w_s3 w' = w_s3 w ∧ w_db w' = w_db w)
  ∧ (dim_records (w_db w) d = [] →
     validator.ValidateParams c (w_db w) = Ok data
     ∧ ∀ form ls es w1 a rs w2,
         req_form c = Ok form →
         upload_files U data (default [] (File form !! "file")) [] [] w
         = inr (ls, es, w1) →
         store_links repo data 0 ls es [] w1 = inr (ASpecificApp a :: rs, w2) →
         w_written w'
         = w_written w ++ [(200%Z, {[ "uploadResult" := AStr (Hex (ID a)) ]})])
  ∧ dimension_required DChannel
    = "you have a created channels, setting channel is required"
  ∧ dimension_required DPlatform
    = "you have a created platforms, setting platform is required"
  ∧ dimension_required DArch
    = "you have a created archs, setting arch is required".
Proof.
  intros Hdata Hav Hothers Hk w'.
  pose proof (ValidateParams_gate c (w_db w) data d Hdata Hav Hothers Hk) as Hv.
  split; [|split; [|done]].
  - intros Hrec. unfold w', UploadApp. rewrite Hv.
    by destruct (dim_records (w_db w) d).
  - intros Hrec. rewrite Hrec in Hv. split; [done|].
    intros form ls es w1 a rs w2 Hf Hup Hst. unfold w'.
    rewrite (UploadApp_reached validator.ValidateParams U G repo c perf w data
               form ls es w1 _ w2 Hv Hf Hup Hst).
    pose proof (invalidate_if_published_frame G data perf w2) as (_ & _ & Hwr3).
    pose proof (upload_files_inr _ _ _ _ _ _ _ _ _ Hup) as (_ & _ & Hwr1 & _).
    pose proof (store_links_inr _ _ _ _ _ _ _ _ _ Hst) as (_ & _ & Hwr2 & _).
    cbn zeta. change (w_written (c_JSON ?x ?y ?z)) with (w_written z ++ [(x, y)]).
    by rewrite Hwr3, Hwr2, Hwr1.
Qed.

Lemma C4_dimension_gate_witness :
  let data : H := {[ "app_name" := AStr "testapp"; "version" := AStr "0.0.1.137" ]} in
  let c := scenario.upload_request data [scenario.license] in
  let run := UploadApp validator.ValidateParams scenario.UploadToS3
               validator.GetBoolParam mongod.repository c true in
  (app_and_version_ok scenario.db5 data
   ∧ dim_records scenario.db5 DChannel ≠ []
   ∧ w_written (run (scenario.world scenario.db5 None))
     = [(400%Z,
         {[ "error" := AStr "you have a created channels, setting channel is required" ]})]
   ∧ w_s3 (run (scenario.world scenario.db5 None)) = scenario.s3_0
   ∧ w_db (run (scenario.world scenario.db5 None)) = scenario.db5)
  ∧ (dim_records scenario.db0 DChannel = []
     ∧ w_written (run (scenario.world scenario.db0 None))
       = [(200%Z, {[ "uploadResult" := AStr "000000000000000000000001" ]})]).
Proof.
  intros data c run.
  assert (∀ db, db_apps db = [(scenario.oid "a1", "testapp")] →
                app_and_version_ok db data) as Hav.
  { intros db Happs. split.
    - exists "testapp". split; [reflexivity|]. split; [reflexivity|].
      rewrite Happs. apply list_elem_of_here.
    - exists "0.0.1.137". split; reflexivity. }
  assert (∀ db, db_platforms db = [] → db_archs db = [] →
                ∀ d', d' ≠ DChannel → dimension_ok db data d') as Hothers.
  { intros db Hp Ha [] Hne; [done|exact Hp|exact Ha]. }
  split.
  - destruct (C4_dimension_gate scenario.UploadToS3 validator.GetBoolParam
                mongod.repository c true (scenario.world scenario.db5 None)
                data DChannel eq_refl (Hav scenario.db5 eq_refl)
                (Hothers scenario.db5 eq_refl eq_refl) eq_refl) as (Hgate & _).
    split; [exact (Hav scenario.db5 eq_refl)|]. split; [discriminate|].
    exact (Hgate ltac:(discriminate)).
  - destruct (C4_dimension_gate scenario.UploadToS3 validator.GetBoolParam
                mongod.repository c true (scenario.world scenario.db0 None)
                data DChannel eq_refl (Hav scenario.db0 eq_refl)
                (Hothers scenario.db0 eq_refl eq_refl) eq_refl) as (_ & Hfree & _).
    split; [reflexivity|].
    destruct (Hfree eq_refl) as [_ Hok].
    set (w1 := set_s3 (PutObject "bucket" "testapp/testapp-0.0.1.137"
                         (Some "Apache") scenario.s3_0).2
                 (scenario.world scenario.db0 None)).
    set (lnk := "https://s3.example/testapp/testapp-0.0.1.137").
    set (a := mkSpecificApp (mkObjectID "000000000000000000000001") "testapp"
                "0.0.1.137" "" false false [mkArtifact lnk "" "" ""]
                [mkChangelog "0.0.1.137" "" "2026-01-01"]).
    refine (Hok (mkForm {[ "file" := [scenario.license] ]}) [lnk] [""] w1 a []
              (set_db (mongod.Upload data lnk "" scenario.db0).2 w1)
              eq_refl _ _); vm_compute; reflexivity.
Defined.

(** * Further properties of the handlers *)

(** ** [UploadApp]: one response, and what each status means *)

Section upload_app_more.
Variable V : Request → Mongo → Result H.
Variable U : H → utils.FileHeader → S3 → Result (string * string) * S3.
Variable G : option Any → bool.
Variable repo : AppRepository.

Lemma upload_files_length (p : H) (fs : list utils.FileHeader) (ls es : list string)
    (w : World) (ls' es' : list string) (w' : World) :
  upload_files U p fs ls es w = inr (ls', es', w') →
  length ls' = length ls + length fs ∧ length es' = length es + length fs.
Proof.
  revert ls es w. induction fs as [|f fs IH]; intros ls es w Hup.
  - injection Hup as <- <- _. simpl. lia.
  - simpl in Hup. destruct (U p f (w_s3 w)) as [[[l e]|e] s3']; [|done].
    apply IH in Hup. rewrite !length_app in Hup. simpl in *. lia.
Qed.

Lemma store_links_length (p : H) (i : nat) (ls es : list string) (rs : list Any)
    (w : World) (rs' : list Any) (w' : World) :
  store_links repo p i ls es rs w = inr (rs', w') →
  length rs' = length rs + length ls.
Proof.
  revert i rs w. induction ls as [|l ls IH]; intros i rs w Hst.
  - injection Hst as <- _. simpl. lia.
  - simpl in Hst.
    destruct (Upload repo p l (default "" (es !! i)) (w_db w)) as [[r|e] db']; [|done].
    apply IH in Hst. rewrite length_app in Hst. simpl in *. lia.
Qed.


(** Every run of [UploadApp] calls [c.JSON] exactly once, with status
    200, 400 or 500. *)
Theorem UploadApp_one_response (c : Request) (perf : bool) (w : World) :
  ∃ code body,
    w_written (UploadApp V U G repo c perf w) = w_written w ++ [(code, body)]
    ∧ (code = 200 ∨ code = 400 ∨ code = 500)%Z.
Proof.
  unfold UploadApp.
  destruct (V c (w_db w)) as [p|e]; [|by eexists _, _; split; [done|auto]].
  destruct (req_form c) as [form|e]; [|by eexists _, _; split; [done|auto]].
  destruct (upload_files U p _ [] [] w) as [w1|[[ls es] w1]] eqn:Hup.
  { apply upload_files_inl in Hup as (_ & _ & ->). eexists _, _. split; [done|auto]. }
  apply upload_files_inr in Hup as (_ & _ & Hwr1 & _).
  destruct (store_links repo p 0 ls es [] w1) as [w2|[rs w2]] eqn:Hst.
  { apply store_links_inl in Hst as (_ & _ & e & ->). rewrite Hwr1.
    eexists _, _. split; [done|auto]. }
  apply store_links_inr in Hst as (_ & _ & Hwr2 & _).
  pose proof (invalidate_if_published_frame G p perf w2) as (_ & _ & Hwr3).
  destruct rs as [|[| | | |a|] rs];
    change (w_written (c_JSON ?x ?y ?z)) with (w_written z ++ [(x, y)]);
    rewrite Hwr3, Hwr2, Hwr1; eexists _, _; (split; [done|auto]).
Qed.

(** A 400 from [UploadApp] means that nothing else happened: the
    validator refused the request or the multipart form was missing, and
    no store and no log line was written. *)
Theorem UploadApp_bad_request (c : Request) (perf : bool) (w : World) (body : H) :
  w_written (UploadApp V U G repo c perf w) = w_written w ++ [(400%Z, body)] →
  UploadApp V U G repo c perf w = c_JSON 400 body w
  ∧ ((∃ e, V c (w_db w) = Err e ∧ body = error_body e)
     ∨ ((∃ p, V c (w_db w) = Ok p) ∧ (∃ e, req_form c = Err e)
        ∧ body = error_body "multipart form data is required")).
Proof.
  unfold UploadApp.
  destruct (V c (w_db w)) as [p|e].
  2: { intros Hw. simpl in Hw. apply app_inv_head in Hw. injection Hw as <-.
       split; [done|]. left. by exists e. }
  destruct (req_form c) as [form|e].
  2: { intros Hw. simpl in Hw. apply app_inv_head in Hw. injection Hw as <-.
       split; [done|]. right. split; [by exists p|]. split; [by exists e|done]. }
  destruct (upload_files U p _ [] [] w) as [w1|[[ls es] w1]] eqn:Hup.
  { apply upload_files_inl in Hup as (_ & _ & ->). intros Hw.
    by apply app_inv_head in Hw. }
  apply upload_files_inr in Hup as (_ & _ & Hwr1 & _).
  destruct (store_links repo p 0 ls es [] w1) as [w2|[rs w2]] eqn:Hst.
  { apply store_links_inl in Hst as (_ & _ & e & ->). rewrite Hwr1. intros Hw.
    by apply app_inv_head in Hw. }
  apply store_links_inr in Hst as (_ & _ & Hwr2 & _).
  pose proof (invalidate_if_published_frame G p perf w2) as (_ & _ & Hwr3).
  destruct rs as [|[| | | |a|] rs];
    change (w_written (c_JSON ?x ?y ?z)) with (w_written z ++ [(x, y)]);
    rewrite Hwr3, Hwr2, Hwr1; intros Hw; by apply app_inv_head in Hw.
Qed.


(** When the repository refuses a link, [UploadApp] answers 500 with the
    repository's error text and logs it; nothing is rolled back: the
    releases recorded before stay, every blob of the request stays in the
    object store, and the cache is not touched. *)
Theorem UploadApp_metadata_failure (c : Request) (perf : bool) (w : World) (p : H)
    (form : MultipartForm) (pre post es : list string) (lnk : string)
    (w1 : World) (rs : list Any) (w2 : World) (e : Error) (db' : Mongo) :
  V c (w_db w) = Ok p → req_form c = Ok form →
  upload_files U p (default [] (File form !! "file")) [] [] w
  = inr (pre ++ lnk :: post, es, w1) →
  store_links repo p 0 pre es [] w1 = inr (rs, w2) →
  Upload repo p lnk (default "" (es !! length pre)) (w_db w2) = (Err e, db') →
  let w' := UploadApp V U G repo c perf w in
  w_written w' = w_written w ++ [(500%Z, error_body e)]
  ∧ w_log w' = w_log w ++ [(ErrorLevel, e)]
  ∧ w_db w' = db' ∧ w_s3 w' = w_s3 w1 ∧ w_rdb w' = w_rdb w.
Proof.
  intros Hv Hf Hup Hpre Hfail w'.
  pose proof (upload_files_inr _ _ _ _ _ _ _ _ _ Hup) as (_ & Hrdb1 & Hwr1 & Hlog1).
  pose proof (store_links_inr _ _ _ _ _ _ _ _ _ Hpre) as (Hs3 & Hrdb2 & Hwr2 & Hlog2).
  assert (w' = c_JSON StatusInternalServerError (error_body e)
                 (logrus_Error e (set_db db' w2))) as ->.
  { unfold w', UploadApp. rewrite Hv, Hf, Hup, store_links_app, Hpre. simpl.
    by rewrite Hfail. }
  simpl. by rewrite Hs3, Hrdb2, Hrdb1, Hwr2, Hwr1, Hlog2, Hlog1.
Qed.

(** A 200 from [UploadApp] means that there was at least one file part
    and that every part was uploaded and recorded: as many links,
    extensions and results as parts.  In particular the index
    [extensions[i]] of the second loop is always in range. *)
Theorem UploadApp_ok_counts (c : Request) (perf : bool) (w : World) (body : H) :
  w_written (UploadApp V U G repo c perf w) = w_written w ++ [(200%Z, body)] →
  ∃ p form ls es w1 rs w2,
    V c (w_db w) = Ok p ∧ req_form c = Ok form
    ∧ upload_files U p (default [] (File form !! "file")) [] [] w = inr (ls, es, w1)
    ∧ store_links repo p 0 ls es [] w1 = inr (rs, w2)
    ∧ 0 < length (default [] (File form !! "file"))
    ∧ length ls = length (default [] (File form !! "file"))
    ∧ length es = length ls ∧ length rs = length ls
    ∧ (∀ i, i < length ls → is_Some (es !! i))
    ∧ w_db (UploadApp V U G repo c perf w) = w_db w2
    ∧ w_s3 (UploadApp V U G repo c perf w) = w_s3 w1.
Proof.
  intros Hok.
  destruct (UploadApp_ok_inv V U G repo c perf w body Hok)
    as (p & form & ls & es & w1 & a & rs & w2 & Hv & Hf & Hup & Hst & _).
  exists p, form, ls, es, w1, (ASpecificApp a :: rs), w2.
  set (files := default [] (File form !! "file")) in *.
  pose proof (upload_files_length _ _ _ _ _ _ _ _ Hup) as [Hls Hes].
  pose proof (store_links_length _ _ _ _ _ _ _ _ Hst) as Hrs.
  pose proof (store_links_inr _ _ _ _ _ _ _ _ _ Hst) as (Hs3 & _).
  pose proof (invalidate_if_published_frame G p perf w2) as (Hdb3 & Hs33 & _).
  cbn [length Nat.add] in Hls, Hes, Hrs.
  split; [done|]. split; [done|]. split; [done|]. split; [done|].
  split; [lia|]. split; [lia|]. split; [lia|]. split; [cbn [length]; lia|].
  split; [intros i Hi; apply lookup_lt_is_Some; lia|].
  rewrite (UploadApp_reached V U G repo c perf w p form ls es w1 _ w2 Hv Hf Hup Hst).
  cbn zeta. cbn [c_JSON w_db w_s3]. by rewrite Hdb3, Hs33, Hs3.
Qed.

End upload_app_more.

Lemma UploadApp_bad_request_witness :
  let c := scenario.upload_request
             {[ "app_name" := AStr "testapp"; "version" := AStr "0.0.1.137" ]}
             [scenario.license] in
  let w := scenario.world scenario.db5 None in
  let body := error_body "you have a created channels, setting channel is required" in
  let w' := UploadApp validator.ValidateParams scenario.UploadToS3
              validator.GetBoolParam mongod.repository c true w in
  w_written w' = w_written w ++ [(400%Z, body)] ∧ w' = c_JSON 400 body w.
Proof.
  intros c w body w'.
  assert (w_written w' = w_written w ++ [(400%Z, body)]) as Hw
    by (vm_compute; reflexivity).
  split; [exact Hw|].
  exact (proj1 (UploadApp_bad_request validator.ValidateParams scenario.UploadToS3
                  validator.GetBoolParam mongod.repository c true w body Hw)).
Defined.


Lemma UploadApp_metadata_failure_witness :
  let p : H := {[ "app_name" := AStr "testapp"; "version" := AStr "0.0.1.137" ]} in
  let c := scenario.upload_request p [scenario.license] in
  let w := scenario.world scenario.db0 None in
  let repo := mongod.unreachable "server selection timeout" in
  let w' := UploadApp validator.ValidateParams scenario.UploadToS3
              validator.GetBoolParam repo c true w in
  w_written w' = [(500%Z, error_body "server selection timeout")]
  ∧ s3_objects (w_s3 w') !! ("bucket", "testapp/testapp-0.0.1.137") = Some (Some "Apache").
Proof.
  intros p c w repo w'.
  set (w1 := set_s3 (PutObject "bucket" "testapp/testapp-0.0.1.137"
                       (Some "Apache") scenario.s3_0).2 w).
  destruct (UploadApp_metadata_failure validator.ValidateParams scenario.UploadToS3
              validator.GetBoolParam repo c true w p
              (mkForm {[ "file" := [scenario.license] ]}) [] [] [""]
              "https://s3.example/testapp/testapp-0.0.1.137" w1 [] w1
              "server selection timeout" scenario.db0)
    as (Hwr & _ & _ & Hs3 & _); [vm_compute; reflexivity|reflexivity
                                 |vm_compute; reflexivity|reflexivity|reflexivity|].
  split; [exact Hwr|]. unfold w'. rewrite Hs3. vm_compute. reflexivity.
Defined.

Lemma UploadApp_ok_counts_witness :
  let c := scenario.upload_request
             {[ "app_name" := AStr "testapp"; "version" := AStr "0.0.1.137" ]}
             [scenario.license] in
  let w := scenario.world scenario.db0 None in
  let w' := UploadApp validator.ValidateParams scenario.UploadToS3
              validator.GetBoolParam mongod.repository c true w in
  w_written w'
  = w_written w ++ [(200%Z, {[ "uploadResult" := AStr "000000000000000000000001" ]})]
  ∧ ∃ form, req_form c = Ok form ∧ 0 < length (default [] (File form !! "file")).
Proof.
  intros c w w'.
  assert (w_written w'
          = w_written w
            ++ [(200%Z, {[ "uploadResult" := AStr "000000000000000000000001" ]})])
    as Hok by (vm_compute; reflexivity).
  split; [exact Hok|].
  destruct (UploadApp_ok_counts validator.ValidateParams scenario.UploadToS3
              validator.GetBoolParam mongod.repository c true w _ Hok)
    as (p & form & ls & es & w1 & rs & w2 & _ & Hf & _ & _ & Hpos & _).
  exists form. split; [exact Hf|exact Hpos].
Defined.

(** ** [InvalidateCache]: what is deleted under any faults *)

Section invalidate_cache_more.
Variable params : H.

Lemma invalidate_keys_faults (keys : list string) (r : Redis) (w : World) :
  rdb_match (invalidate_keys keys r w).1 = rdb_match r
  ∧ rdb_keys_fault (invalidate_keys keys r w).1 = rdb_keys_fault r
  ∧ rdb_del_fault (invalidate_keys keys r w).1 = rdb_del_fault r.
Proof.
  revert r w. induction keys as [|k ks IH]; intros r w; [done|].
  simpl. pose proof (rdb_Del_faults k r) as (Hm & Hk & Hd).
  destruct (rdb_Del k r) as [err r1]. simpl in Hm, Hk, Hd.
  rewrite <- Hm, <- Hk, <- Hd. apply IH.
Qed.

Lemma InvalidateCache_faults (r : Redis) (w : World) :
  rdb_match (InvalidateCache params r w).1.2 = rdb_match r
  ∧ rdb_keys_fault (InvalidateCache params r w).1.2 = rdb_keys_fault r
  ∧ rdb_del_fault (InvalidateCache params r w).1.2 = rdb_del_fault r.
Proof.
  unfold InvalidateCache. destruct (rdb_Keys _ r) as [keys|e]; [|done].
  case_bool_decide; [done|].
  match goal with |- context [invalidate_keys ?ks ?r ?w] =>
    pose proof (invalidate_keys_faults ks r w) as Hf;
    destruct (invalidate_keys ks r w) end.
  apply Hf.
Qed.

Lemma InvalidateCache_data_faults (r : Redis) (w : World) (k : string) :
  rdb_data (InvalidateCache params r w).1.2 !! k
  = if decide (rdb_keys_fault r = None
               ∧ rdb_match r (pattern_of params) k = true
               ∧ rdb_del_fault r k = None)
    then None else rdb_data r !! k.
Proof.
  destruct (rdb_keys_fault r) as [e|] eqn:Hkf.
  - rewrite (InvalidateCache_keys_fault params r w e Hkf). cbn [fst snd].
    by rewrite decide_False by (by intros [? _]).
  - rewrite (InvalidateCache_data params r w k Hkf).
    destruct (decide (rdb_match r (pattern_of params) k = true
                      ∧ rdb_del_fault r k = None)) as [[Hm Hd]|Hn].
    + by rewrite decide_True.
    + rewrite decide_False; [done|]. intros (_ & Hm & Hd). by apply Hn.
Qed.

(** [InvalidateCache] fails exactly when the listing fails, and then
    deletes nothing; otherwise it deletes the keys that match the pattern
    and whose deletion the cache accepts, and nothing else, and returns
    nil even when deletions failed.  It writes no response and touches
    neither the metadata nor the blobs. *)
Theorem InvalidateCache_effect (r : Redis) (w : World) :
  (InvalidateCache params r w).1.1
  = (λ e, "failed to fetch keys for invalidation: " +:+ e) <$> rdb_keys_fault r
  ∧ (∀ k, rdb_data (InvalidateCache params r w).1.2 !! k
          = if decide (rdb_keys_fault r = None
                       ∧ rdb_match r (pattern_of params) k = true
                       ∧ rdb_del_fault r k = None)
            then None else rdb_data r !! k)
  ∧ w_written (InvalidateCache params r w).2 = w_written w
  ∧ w_db (InvalidateCache params r w).2 = w_db w
  ∧ w_s3 (InvalidateCache params r w).2 = w_s3 w.
Proof.
  pose proof (InvalidateCache_frame params r w) as (Hdb & Hs3 & _ & Hwr).
  split; [|split; [|done]].
  - unfold InvalidateCache, rdb_Keys. destruct (rdb_keys_fault r); [done|].
    case_bool_decide; [done|]. by destruct (invalidate_keys _ _ _).
  - apply InvalidateCache_data_faults.
Qed.

(** Running [InvalidateCache] a second time deletes nothing more,
    whatever the cache's faults. *)
Theorem InvalidateCache_idempotent (r : Redis) (w w' : World) :
  rdb_data (InvalidateCache params (InvalidateCache params r w).1.2 w').1.2
  = rdb_data (InvalidateCache params r w).1.2.
Proof.
  apply map_eq. intros k.
  rewrite (InvalidateCache_data_faults (InvalidateCache params r w).1.2 w' k).
  destruct (InvalidateCache_faults r w) as (-> & -> & ->).
  case_decide as Hyes; [|done].
  rewrite InvalidateCache_data_faults. by rewrite decide_True.
Qed.

End invalidate_cache_more.

(** ** [FindLatestVersion]: the responses *)

Section find_latest_version_more.
Variable V : Request → Mongo → Result H.
Variable repo : AppRepository.

Lemma add_update_url_spec (response : H) (a : Artifact) :
  add_update_url response a
  = if decide (has_url a) then <[ url_key a := AStr (Link a) ]> response else response.
Proof.
  unfold add_update_url, has_url, url_key.
  destruct (decide (Package a = "")) as [Hp|Hp], (decide (Link a = "")) as [Hl|Hl].
  - rewrite decide_False by (by intros [? _]). by rewrite bool_decide_eq_true_2.
  - rewrite decide_False by (by intros [? _]). by rewrite bool_decide_eq_true_2.
  - rewrite decide_False by (by intros [_ ?]).
    by rewrite (bool_decide_eq_true_2 (Link a = "")), andb_false_r.
  - rewrite decide_True by done. by rewrite !bool_decide_eq_false_2.
Qed.

Lemma foldl_add_update_url_keep (response : H) (l : list Artifact) (k : string) :
  (∀ b, b ∈ l → has_url b → url_key b ≠ k) →
  foldl add_update_url response l !! k = response !! k.
Proof.
  revert response. induction l as [|b l IH]; intros response Hl; [done|].
  simpl. rewrite IH by (intros b' Hb'; apply Hl; by right).
  rewrite add_update_url_spec. case_decide as Hb; [|done].
  apply lookup_insert_ne, Hl; [by left|done].
Qed.

Lemma foldl_add_update_url_inv (response : H) (l : list Artifact) (k : string)
    (v : Any) :
  foldl add_update_url response l !! k = Some v →
  response !! k = Some v
  ∨ ∃ a, a ∈ l ∧ has_url a ∧ k = url_key a ∧ v = AStr (Link a).
Proof.
  revert response. induction l as [|b l IH]; intros response Hk; [by left|].
  simpl in Hk. apply IH in Hk as [Hk|(a & Ha & Hu & -> & ->)].
  - rewrite add_update_url_spec in Hk. case_decide as Hb; [|by left].
    destruct (decide (url_key b = k)) as [<-|Hne].
    + rewrite lookup_insert_eq in Hk. injection Hk as <-.
      right. exists b. split; [by left|done].
    + rewrite lookup_insert_ne in Hk by done. by left.
  - right. exists a. split; [by right|done].
Qed.

(** When the repository reports a newer release, the response is 200
    with [update_available: true], no [error], and an [update_url_<ext>]
    entry (the leading dot of the package stripped) for each artifact
    with a non-empty package and link, and nothing else; of two artifacts
    with the same key the later one wins. *)
Theorem FindLatestVersion_found (c : Request) (w : World) (p : H) (r : CheckResult) :
  V c (w_db w) = Ok p →
  CheckLatestVersion repo (Query c "app_name") (Query c "version")
    (Query c "channel") (Query c "platform") (Query c "arch") (w_db w) = Ok r →
  Found r = true →
  ∃ body,
    FindLatestVersion V repo c w = c_JSON 200 body w
    ∧ body !! "update_available" = Some (ABool true)
    ∧ body !! "error" = None
    ∧ (∀ k v, body !! k = Some v →
         k = "update_available"
         ∨ ∃ a, a ∈ cr_Artifacts r ∧ has_url a ∧ k = url_key a ∧ v = AStr (Link a))
    ∧ (∀ l1 a l2, cr_Artifacts r = l1 ++ a :: l2 → has_url a →
         (∀ b, b ∈ l2 → has_url b → url_key b ≠ url_key a) →
         body !! url_key a = Some (AStr (Link a))).
Proof.
  intros Hv Hr Hfound. eexists. unfold FindLatestVersion. rewrite Hv, Hr, Hfound.
  simpl. split; [done|]. split; [|split; [|split]].
  - rewrite add_update_url_available. apply lookup_singleton_eq.
  - rewrite foldl_add_update_url_keep; [done|].
    intros b _ _. apply update_url_not_error.
  - intros k v Hk. apply foldl_add_update_url_inv in Hk as [Hk|Hk]; [|by right].
    left. apply lookup_singleton_Some in Hk as [<- _]. done.
  - intros l1 a l2 -> Ha Hl2. rewrite foldl_app. simpl.
    rewrite foldl_add_update_url_keep by done.
    rewrite add_update_url_spec, decide_True by done. apply lookup_insert_eq.
Qed.

(** [FindLatestVersion] reads only: it leaves the metadata, the blobs and
    the cache as they are and calls [c.JSON] exactly once: 400 with the
    validator's error, 500 with the repository's error, or 200 with a
    body whose [update_available] is the repository's [Found] and which
    has an [error] entry exactly when that is false. *)
Theorem FindLatestVersion_responses (c : Request) (w : World) :
  let w' := FindLatestVersion V repo c w in
  w_db w' = w_db w ∧ w_s3 w' = w_s3 w ∧ w_rdb w' = w_rdb w
  ∧ ∃ code body,
      w_written w' = w_written w ++ [(code, body)]
      ∧ ((code = 400%Z ∧ ∃ e, V c (w_db w) = Err e ∧ body = error_body e)
         ∨ (code = 500%Z
            ∧ ∃ e, CheckLatestVersion repo (Query c "app_name") (Query c "version")
                     (Query c "channel") (Query c "platform") (Query c "arch")
                     (w_db w) = Err e
                   ∧ body = error_body e)
         ∨ (code = 200%Z
            ∧ ∃ r, CheckLatestVersion repo (Query c "app_name") (Query c "version")
                     (Query c "channel") (Query c "platform") (Query c "arch")
                     (w_db w) = Ok r
                   ∧ body !! "update_available" = Some (ABool (Found r))
                   ∧ (is_Some (body !! "error") ↔ Found r = false))).
Proof.
  intros w'. unfold w', FindLatestVersion.
  destruct (V c (w_db w)) as [p|e].
  2: { repeat split; try done. eexists _, _. split; [done|]. left. split; [done|].
       by exists e. }
  destruct (CheckLatestVersion repo _ _ _ _ _ _) as [r|e].
  2: { repeat split; try done. eexists _, _. split; [done|]. right. left.
       split; [done|]. by exists e. }
  destruct (Found r) eqn:Hfound; simpl.
  - repeat split; try done. eexists _, _. split; [done|]. right. right.
    split; [done|]. exists r. split; [done|]. rewrite Hfound.
    split; [rewrite add_update_url_available; apply lookup_singleton_eq|].
    rewrite foldl_add_update_url_keep
      by (intros b _ _; apply update_url_not_error).
    split; [intros [? Hx]; by rewrite lookup_singleton_ne in Hx|done].
  - assert (∀ x : World, (if bool_decide (length (cr_Artifacts r) = 0) then x else x) = x)
      as Hif by (intros x; by case_bool_decide).
    rewrite Hif. repeat split; try done. eexists _, _. split; [done|]. right. right.
    split; [done|]. exists r. split; [done|]. rewrite Hfound.
    split; [apply lookup_insert_eq|]. split; [done|].
    intros _. rewrite lookup_insert_ne by done. rewrite lookup_singleton_eq. eauto.
Qed.

End find_latest_version_more.

Lemma FindLatestVersion_found_witness :
  let c := scenario.check_request "0.0.1.137" in
  let w := scenario.world scenario.db1 None in
  let r := mkCheckResult true [scenario.dmg "0.0.2.137"] in
  mongod.CheckLatestVersion "testapp" "0.0.1.137" "nightly" "universalPlatform"
    "universalArch" scenario.db1 = Ok r
  ∧ ∃ body,
      FindLatestVersion validator.ValidateParams mongod.repository c w
      = c_JSON 200 body w
      ∧ body !! "update_url_dmg"
        = Some (AStr "https://s3.example/testapp/testapp-0.0.2.137.dmg").
Proof.
  intros c w r.
  assert (mongod.CheckLatestVersion "testapp" "0.0.1.137" "nightly"
            "universalPlatform" "universalArch" scenario.db1 = Ok r) as Hr
    by (vm_compute; reflexivity).
  split; [exact Hr|].
  destruct (FindLatestVersion_found validator.ValidateParams mongod.repository c w
              (AStr <$> req_query c) r eq_refl Hr eq_refl)
    as (body & Hw & _ & _ & _ & Hlast).
  exists body. split; [exact Hw|].
  refine (Hlast [] (scenario.dmg "0.0.2.137") [] eq_refl _ _).
  - split; discriminate.
  - intros b Hb. by apply elem_of_nil in Hb.
Defined.

(** ** The catalog handlers *)

Section catalog_more.
Variable repo : AppRepository.

(** [GetAppByName] and [GetAllApps] always answer 200, once, with a body
    whose only entry is [apps]: the repository's list, or null when the
    repository failed (the error goes to the log).  They write no
    store. *)
Theorem catalog_always_200 (c : Request) (w : World) :
  (∃ apps, GetAppByName repo c w
           = c_JSON 200 {[ "apps" := apps ]}
               (match repo_GetAppByName repo (Query c "app_name") (w_db w) with
                | Err e => logrus_Error e w
                | Ok _ => w
                end)
           ∧ apps = match repo_GetAppByName repo (Query c "app_name") (w_db w) with
                    | Err _ => ANil
                    | Ok result => apps_value result
                    end)
  ∧ (∃ apps, GetAllApps repo c w
             = c_JSON 200 {[ "apps" := apps ]}
                 (match repo_Get repo (w_db w) with
                  | Err e => logrus_Error e w
                  | Ok _ => w
                  end)
             ∧ apps = match repo_Get repo (w_db w) with
                      | Err _ => ANil
                      | Ok result => apps_value result
                      end)
  ∧ w_db (GetAppByName repo c w) = w_db w ∧ w_db (GetAllApps repo c w) = w_db w
  ∧ w_s3 (GetAppByName repo c w) = w_s3 w ∧ w_s3 (GetAllApps repo c w) = w_s3 w.
Proof.
  unfold GetAppByName, GetAllApps.
  destruct (repo_GetAppByName repo _ _), (repo_Get repo _); simpl; eauto 10.
Qed.

End catalog_more.

(** ** The delete handlers *)

Section delete_more.
Variable repo : AppRepository.
Variable O : string → Result ObjectID.
Variable env : Viper.

Lemma DeleteFromS3_effect (key : string) (w : World) :
  let w' := utils.DeleteFromS3 key env w in
  (∀ b k, s3_objects (w_s3 w') !! (b, k)
          = if decide (b = GetString env "S3_BUCKET_NAME" ∧ k = key
                       ∧ s3_delete_fault (w_s3 w) key = None)
            then None else s3_objects (w_s3 w) !! (b, k))
  ∧ s3_delete_fault (w_s3 w') = s3_delete_fault (w_s3 w)
  ∧ w_db w' = w_db w ∧ w_rdb w' = w_rdb w
  ∧ w_written w'
    = w_written w
      ++ match s3_delete_fault (w_s3 w) key with
         | Some _ => [(500%Z, error_body "failed to delete file from S3")]
         | None => []
         end.
Proof.
  unfold utils.DeleteFromS3, DeleteObject.
  destruct (s3_delete_fault (w_s3 w) key) as [e|] eqn:Hf; simpl.
  - split; [|done]. intros b k. by rewrite decide_False by (by intros (_ & _ & ?)).
  - rewrite app_nil_r. split; [|done]. intros b k. case_decide as Hk.
    + destruct Hk as (-> & -> & _). apply lookup_delete_eq.
    + apply lookup_delete_ne. intros [= <- <-]. by apply Hk.
Qed.

Lemma purge_effect (links : list string) (w : World) :
  let w' := foldl (λ w link,
                     utils.DeleteFromS3
                       (GoStrings.TrimPrefix link (GetString env "S3_ENDPOINT")) env w)
              w links in
  (∀ b k, s3_objects (w_s3 w') !! (b, k)
          = if decide (b = GetString env "S3_BUCKET_NAME" ∧ k ∈ purge_keys env links
                       ∧ s3_delete_fault (w_s3 w) k = None)
            then None else s3_objects (w_s3 w) !! (b, k))
  ∧ s3_delete_fault (w_s3 w') = s3_delete_fault (w_s3 w)
  ∧ w_db w' = w_db w ∧ w_rdb w' = w_rdb w
  ∧ w_written w'
    = w_written w
      ++ ((λ _, (500%Z, error_body "failed to delete file from S3"))
            <$> filter (λ k, is_Some (s3_delete_fault (w_s3 w) k)) (purge_keys env links)).
Proof.
  revert w. induction links as [|l links IH]; intros w.
  { simpl. rewrite app_nil_r. split; [|done]. intros b k.
    rewrite decide_False; [done|]. intros (_ & Hk & _). by apply elem_of_nil in Hk. }
  cbn zeta in *. cbn [foldl].
  set (key := GoStrings.TrimPrefix l (GetString env "S3_ENDPOINT")).
  destruct (DeleteFromS3_effect key w) as (Hobj & Hfault & Hdb & Hrdb & Hwr).
  destruct (IH (utils.DeleteFromS3 key env w)) as (Hobj' & Hfault' & Hdb' & Hrdb' & Hwr').
  split; [|split; [|split; [|split]]].
  - intros b k. rewrite Hobj', Hfault, Hobj.
    unfold purge_keys. rewrite fmap_cons. fold (purge_keys env links). fold key.
    destruct (decide (b = GetString env "S3_BUCKET_NAME"
                      ∧ k ∈ purge_keys env links
                      ∧ s3_delete_fault (w_s3 w) k = None)) as [(Hb & Hk & Hf)|Hn1].
    + rewrite decide_True; [done|]. split; [done|]. split; [by right|done].
    + destruct (decide (b = GetString env "S3_BUCKET_NAME" ∧ k = key
                        ∧ s3_delete_fault (w_s3 w) key = None)) as [(Hb & -> & Hf)|Hn2].
      * rewrite decide_True; [done|]. split; [done|]. split; [by left|done].
      * rewrite decide_False; [done|]. intros (Hb & Hk & Hf).
        apply elem_of_cons in Hk as [->|Hk]; [by apply Hn2|by apply Hn1].
  - by rewrite Hfault'.
  - by rewrite Hdb'.
  - by rewrite Hrdb'.
  - rewrite Hwr', Hwr, Hfault, <- app_assoc. f_equal.
    unfold purge_keys. rewrite fmap_cons. fold (purge_keys env links). fold key.
    rewrite filter_cons. destruct (s3_delete_fault (w_s3 w) key) as [e|] eqn:Hf.
    + rewrite decide_True by eauto. done.
    + rewrite decide_False by (by intros [? ?]). done.
Qed.

(** [DeleteApp] refuses a malformed id with 400 before it calls the
    repository.  Otherwise it takes the repository's store, asks the
    object store to delete, for each link, the link without the
    [S3_ENDPOINT] prefix, and answers 200 with the count; objects under
    other keys stay, and each delete that the object store refuses puts
    a 500 body in front of the final 200 one. *)
Theorem DeleteApp_effect (c : Request) (w : World) :
  let w' := DeleteApp repo O env c w in
  match O (Query c "id") with
  | Err e => w' = c_JSON 400 (error_body e) w
  | Ok objID =>
      let '((links, result, err), db') := repo_DeleteApp repo objID (w_db w) in
      w_db w' = db' ∧ w_rdb w' = w_rdb w
      ∧ (∀ b k, s3_objects (w_s3 w') !! (b, k)
                = if decide (b = GetString env "S3_BUCKET_NAME"
                             ∧ k ∈ purge_keys env links
                             ∧ s3_delete_fault (w_s3 w) k = None)
                  then None else s3_objects (w_s3 w) !! (b, k))
      ∧ w_written w'
        = w_written w
          ++ ((λ _, (500%Z, error_body "failed to delete file from S3"))
                <$> filter (λ k, is_Some (s3_delete_fault (w_s3 w) k))
                      (purge_keys env links))
          ++ [(200%Z, {[ "deleteAppResult.DeletedCount" := result ]})]
  end.
Proof.
  intros w'. unfold w', DeleteApp. destruct (O (Query c "id")) as [objID|e]; [|done].
  destruct (repo_DeleteApp repo objID (w_db w)) as [[[links result] err] db'].
  destruct (purge_effect links
              (match err with
               | Some e => logrus_Error e (set_db db' w)
               | None => set_db db' w
               end)) as (Hobj & _ & Hdb & Hrdb & Hwr).
  cbn [c_JSON w_db w_rdb w_s3 w_written].
  split; [rewrite Hdb; by destruct err|]. split; [rewrite Hrdb; by destruct err|].
  split.
  - intros b k. rewrite Hobj. by destruct err.
  - rewrite Hwr, <- app_assoc. by destruct err.
Qed.

(** [deleteEntity] calls [c.JSON] exactly once and leaves blobs and cache
    alone.  A malformed id gives 400 with the parser's error, and an item
    type other than channel, platform or arch gives 400 "Invalid item
    type", both without a repository call.  For the three kinds, a
    failure of the kind's repository method gives 500 "failed to delete
    <item type>", the repository's own text going to the log only, and a
    success gives 200 with the one key [delete<Kind>Result.DeletedCount];
    in both cases the store is the one the method returned. *)
Theorem deleteEntity_responses (c : Request) (itemType : string) (w : World) :
  let w' := deleteEntity repo O c itemType w in
  let outcome (kind Kind : string) (r : Result Any * Mongo) : Prop :=
    match r with
    | (Err e, db') =>
        w' = c_JSON 500 (error_body ("failed to delete " +:+ kind))
               (logrus_Error e (set_db db' w))
    | (Ok result, db') =>
        w' = c_JSON 200 {[ "delete" +:+ Kind +:+ "Result.DeletedCount" := result ]}
               (set_db db' w)
    end in
  (∀ e, O (Query c "id") = Err e → w' = c_JSON 400 (error_body e) w)
  ∧ (∀ objID, O (Query c "id") = Ok objID →
       (itemType = "channel" →
        outcome "channel" "Channel" (repo_DeleteChannel repo objID (w_db w)))
       ∧ (itemType = "platform" →
          outcome "platform" "Platform" (repo_DeletePlatform repo objID (w_db w)))
       ∧ (itemType = "arch" →
          outcome "arch" "Arch" (repo_DeleteArch repo objID (w_db w)))
       ∧ (itemType ≠ "channel" → itemType ≠ "platform" → itemType ≠ "arch" →
          w' = c_JSON 400 (error_body "Invalid item type") w))
  ∧ w_s3 w' = w_s3 w ∧ w_rdb w' = w_rdb w
  ∧ ∃ code body, w_written w' = w_written w ++ [(code, body)].
Proof.
  intros w' outcome.
  assert (∀ objID kind Kind (del : ObjectID → Mongo → Result Any * Mongo),
            O (Query c "id") = Ok objID → itemType = kind →
            capitalized kind = Kind →
            (if bool_decide (kind = "channel") then Some (repo_DeleteChannel repo)
             else if bool_decide (kind = "platform") then Some (repo_DeletePlatform repo)
             else if bool_decide (kind = "arch") then Some (repo_DeleteArch repo)
             else None) = Some del →
            outcome kind Kind (del objID (w_db w))) as Hkind.
  { intros objID kind Kind del Hid -> <- Hcall. unfold outcome, w', deleteEntity.
    rewrite Hid, Hcall. by destruct (del objID (w_db w)) as [[result|e] db']. }
  split; [|split].
  - intros e Hid. unfold w', deleteEntity. by rewrite Hid.
  - intros objID Hid. split; [|split; [|split]].
    + intros Hk. by apply (Hkind objID "channel" "Channel" _ Hid Hk).
    + intros Hk. by apply (Hkind objID "platform" "Platform" _ Hid Hk).
    + intros Hk. by apply (Hkind objID "arch" "Arch" _ Hid Hk).
    + intros Hc Hp Ha. unfold w', deleteEntity.
      by rewrite Hid, !bool_decide_eq_false_2.
  - unfold w', deleteEntity. destruct (O (Query c "id")) as [objID|e]; [|by eauto].
    destruct (if bool_decide (itemType = "channel") then _ else _) as [del|];
      [|by eauto].
    destruct (del objID (w_db w)) as [[result|e] db']; by eauto.
Qed.

End delete_more.

(** ** The object-store helpers *)

Section utils_more.
Import GoStrings.

Lemma HasPrefix_append (p s : string) : HasPrefix (p +:+ s) p = true.
Proof.
  induction p as [|a p IH]; [done|]. rewrite append_cons. simpl.
  by rewrite decide_True.
Qed.

Lemma TrimPrefix_append (p s : string) : TrimPrefix (p +:+ s) p = s.
Proof. unfold TrimPrefix. by rewrite HasPrefix_append, skip_append. Qed.

Lemma leading_slash_differs (k : string) : "/" +:+ k ≠ k.
Proof.
  intros Heq. apply (f_equal String.length) in Heq.
  change ("/" +:+ k) with (String "/" k) in Heq. simpl in Heq. lia.
Qed.

(** The key that [DeleteApp] derives from a link made by [UploadToS3] is
    the key of the upload with a [/] in front.  In an object store that
    compares keys byte for byte the uploaded object is therefore still
    there after [DeleteFromS3] was called for its link. *)
Theorem delete_key_of_uploaded_link (appName ver : string)
    (file : utils.FileHeader) (env : Viper) (w : World) :
  let key := utils.s3Key appName
               (utils.newFileName appName ver (utils.extension (utils.Filename file))) in
  let '(lnk, w1) := utils.UploadToS3 appName ver file env w in
  let objectKey := TrimPrefix lnk (GetString env "S3_ENDPOINT") in
  objectKey = "/" +:+ key
  ∧ objectKey ≠ key
  ∧ (s3_put_fault (w_s3 w) key = None →
     s3_objects (w_s3 (utils.DeleteFromS3 objectKey env w1))
       !! (GetString env "S3_BUCKET_NAME", key) = Some (reader file)).
Proof.
  intros key.
  pose proof (UploadToS3_link appName ver file env w) as Hl.
  pose proof (UploadToS3_store appName ver file env w) as Hs.
  destruct (utils.UploadToS3 appName ver file env w) as [lnk w1].
  cbn [fst snd] in Hl, Hs. fold key in Hs.
  assert (TrimPrefix lnk (GetString env "S3_ENDPOINT") = "/" +:+ key) as Hkey.
  { rewrite Hl. unfold utils.link. apply TrimPrefix_append. }
  cbn zeta. rewrite Hkey.
  split; [done|]. split; [apply leading_slash_differs|].
  intros Hf. destruct (DeleteFromS3_effect env ("/" +:+ key) w1) as (Hobj & _).
  rewrite Hobj, decide_False.
  - rewrite Hs. by apply PutObject_stored.
  - intros (_ & Heq & _). by apply (leading_slash_differs key).
Qed.

Lemma first_dot_split (name : string) :
  occurs "." name = false
  ∨ ∃ pre rest, name = pre +:+ "." +:+ rest ∧ occurs "." pre = false.
Proof.
  induction name as [|c name IH]; [by left|].
  simpl. destruct (decide ("."%char = c)) as [<-|Hne].
  - right. by exists "", name.
  - destruct IH as [Hno|(pre & rest & -> & Hpre)]; [by left|].
    right. exists (String c pre), rest. split; [done|].
    simpl. by rewrite decide_False.
Qed.

(** Every file name is a dot-free stem followed by its extension, and
    the extension is empty or starts with the dot. *)
Theorem extension_decomposition (name : string) :
  ∃ stem, name = stem +:+ utils.extension name
          ∧ occurs "." stem = false
          ∧ (utils.extension name = ""
             ∨ ∃ rest, utils.extension name = "." +:+ rest).
Proof.
  destruct (first_dot_split name) as [Hno|(pre & rest & -> & Hpre)].
  - exists name. rewrite (extension_no_dot name Hno), append_empty_r. auto.
  - exists pre. rewrite (extension_first_dot pre rest Hpre). eauto.
Qed.

(** [UploadToS3] hides its failures from the caller: the link it returns
    does not depend on them.  A file that cannot be opened and a write
    that the object store refuses each put one 500 body on the context,
    in that order; a refused write leaves the object store as it was, and
    an unopened file is written with a nil body. *)
Theorem UploadToS3_failures (appName ver : string) (file : utils.FileHeader)
    (env : Viper) (w : World) :
  let key := utils.s3Key appName
               (utils.newFileName appName ver (utils.extension (utils.Filename file))) in
  let w' := (utils.UploadToS3 appName ver file env w).2 in
  w_written w'
  = w_written w
    ++ match utils.Open file with
       | Err _ => [(500%Z, error_body "failed to open file for reading")]
       | Ok _ => []
       end
    ++ match s3_put_fault (w_s3 w) key with
       | Some _ => [(500%Z, error_body "failed to upload file to S3")]
       | None => []
       end
  ∧ w_db w' = w_db w ∧ w_rdb w' = w_rdb w
  ∧ match s3_put_fault (w_s3 w) key with
    | Some _ => w_s3 w' = w_s3 w
    | None =>
        s3_objects (w_s3 w') !! (GetString env "S3_BUCKET_NAME", key)
        = Some match utils.Open file with
               | Ok body => Some body
               | Err _ => None
               end
    end.
Proof.
  intros key w'. unfold w', utils.UploadToS3. fold key.
  destruct (utils.Open file) as [body|e]; cbn [w_s3 c_JSON logrus_Error log_to];
    unfold PutObject; destruct (s3_put_fault (w_s3 w) key) as [e'|] eqn:Hf; simpl;
    rewrite ?app_nil_r, <- ?app_assoc;
    repeat split; try done; apply lookup_insert_eq.
Qed.

Lemma all_bytes_occurs (p : ascii → bool) (s : string) :
  utils.all_bytes p s = true ↔ ∀ c, occurs c s = true → p c = true.
Proof.
  induction s as [|b s IH]; simpl; [done|].
  rewrite andb_true_iff, IH. split.
  - intros [Hb Hs] c. destruct (decide (c = b)) as [->|]; auto.
  - intros Hall. split.
    + apply Hall. by rewrite decide_True.
    + intros c Hc. apply Hall. by destruct (decide (c = b)).
Qed.

(** The two surface checks: a valid app name is non-empty and made of
    letters and digits only, a valid version is non-empty and made of
    digits, dots and dashes only.  The object key of a valid app name
    therefore has that name as its first path segment. *)
Theorem valid_input_bytes (input name : string) :
  (utils.IsValidInputAppName input = true
   ↔ input ≠ "" ∧ ∀ c, occurs c input = true → utils.is_alnum c = true)
  ∧ (utils.IsValidInputVersion input = true
     ↔ input ≠ "" ∧ ∀ c, occurs c input = true → utils.is_version_byte c = true)
  ∧ (utils.IsValidInputAppName input = true →
     Index (utils.s3Key input name) "/" = Z.of_nat (String.length input)).
Proof.
  assert (∀ p, utils.matches_plus p input = true
               ↔ input ≠ "" ∧ ∀ c, occurs c input = true → p c = true) as Hplus.
  { intros p. unfold utils.matches_plus. destruct input as [|b s].
    - split; [done|]. by intros [? _].
    - rewrite all_bytes_occurs. split; [by intros ?|by intros [_ ?]]. }
  split; [apply Hplus|]. split; [apply Hplus|].
  intros [_ Hall]%Hplus. unfold Index, utils.s3Key.
  change ("/" +:+ name) with (String "/" name).
  rewrite IndexFrom_first; [lia|].
  destruct (occurs "/" input) eqn:Hocc; [|done].
  apply Hall in Hocc. discriminate Hocc.
Qed.

End utils_more.

Lemma delete_key_of_uploaded_link_witness :
  let w := scenario.world scenario.db1 None in
  let w1 := (utils.UploadToS3 "testapp" "0.0.1.137" scenario.testapp_dmg
               scenario.env w).2 in
  s3_put_fault (w_s3 w) "testapp/testapp-0.0.1.137.dmg" = None
  ∧ s3_objects
      (w_s3 (utils.DeleteFromS3
               (GoStrings.TrimPrefix "https://s3.example/testapp/testapp-0.0.1.137.dmg"
                  "https://s3.example")
               scenario.env w1))
      !! ("bucket", "testapp/testapp-0.0.1.137.dmg") = Some (Some "dmg").
Proof.
  intros w w1. split; [reflexivity|].
  exact (proj2 (proj2 (delete_key_of_uploaded_link "testapp" "0.0.1.137"
                         scenario.testapp_dmg scenario.env w))
               eq_refl).
Defined.

Lemma valid_input_bytes_witness :
  utils.IsValidInputAppName "testapp" = true
  ∧ GoStrings.Index (utils.s3Key "testapp" "testapp-0.0.1.137.dmg") "/" = 7%Z.
Proof.
  split; [reflexivity|].
  exact (proj2 (proj2 (valid_input_bytes "testapp" "testapp-0.0.1.137.dmg")) eq_refl).
Defined.

(** ** The text of the notification *)

Section notification_text.

Lemma collect_artifacts_known (l : list Artifact) (seen : gset string)
    (acc : list string) :
  (∀ a, a ∈ l → artifact_seen_key a ∈ seen) →
  collect_artifacts l seen acc = (seen, acc).
Proof.
  induction l as [|a l IH]; intros Hl; [done|].
  simpl. rewrite bool_decide_eq_true_2 by (apply Hl; by left).
  apply IH. intros b Hb. apply Hl. by right.
Qed.

Lemma collect_artifacts_seen (l : list Artifact) (seen : gset string)
    (acc : list string) :
  (collect_artifacts l seen acc).1 = seen ∪ list_to_set (artifact_seen_key <$> l).
Proof.
  revert seen acc. induction l as [|a l IH]; intros seen acc.
  { apply set_eq. intros k. cbn [collect_artifacts fst].
    rewrite elem_of_union, fmap_nil, elem_of_list_to_set, elem_of_nil. tauto. }
  cbn [collect_artifacts]. rewrite fmap_cons.
  case_bool_decide as Hin; rewrite IH; apply set_eq; intros k;
    rewrite !elem_of_union, !elem_of_list_to_set, elem_of_cons, ?elem_of_singleton.
  - split; [tauto|]. intros [?|[->|?]]; auto.
  - tauto.
Qed.

Lemma collect_artifacts_fresh (l : list Artifact) (seen : gset string)
    (acc : list string) :
  NoDup (artifact_seen_key <$> l) →
  (∀ a, a ∈ l → artifact_seen_key a ∉ seen) →
  (collect_artifacts l seen acc).2 = acc ++ (artifact_line <$> l).
Proof.
  revert seen acc. induction l as [|a l IH]; intros seen acc Hnd Hfresh; simpl.
  { by rewrite app_nil_r. }
  rewrite fmap_cons in Hnd. apply NoDup_cons in Hnd as [Ha Hnd].
  rewrite bool_decide_eq_false_2 by (apply Hfresh; by left).
  rewrite IH; [by rewrite <- app_assoc|done|].
  intros b Hb. rewrite elem_of_union, elem_of_singleton. intros [Heq|Hin].
  - apply Ha. rewrite <- Heq. by apply list_elem_of_fmap_2.
  - revert Hin. apply Hfresh. by right.
Qed.

Lemma result_artifacts_cons (r : Any) (rs : list Any) :
  result_artifacts (r :: rs)
  = match r with ASpecificApp a => Artifacts a | _ => [] end ++ result_artifacts rs.
Proof. done. Qed.

Lemma collect_results_known (rs : list Any) (seen : gset string) (acc : list string) :
  (∀ a, a ∈ result_artifacts rs → artifact_seen_key a ∈ seen) →
  collect_results rs seen acc = (seen, acc).
Proof.
  induction rs as [|r rs IH]; intros Hl; [done|].
  rewrite result_artifacts_cons in Hl.
  assert (collect_results rs seen acc = (seen, acc)) as Hrest.
  { apply IH. intros a Ha. apply Hl. rewrite elem_of_app. by right. }
  destruct r as [| | | |rel|]; simpl; try done.
  rewrite collect_artifacts_known; [done|].
  intros a Ha. apply Hl. rewrite elem_of_app. by left.
Qed.

Lemma collect_results_seen (rs : list Any) (seen : gset string) (acc : list string) :
  (collect_results rs seen acc).1
  = seen ∪ list_to_set (artifact_seen_key <$> result_artifacts rs).
Proof.
  revert seen acc. induction rs as [|r rs IH]; intros seen acc.
  { apply set_eq. intros k. cbn [collect_results fst].
    change (result_artifacts []) with (@nil Artifact).
    rewrite elem_of_union, fmap_nil, elem_of_list_to_set, elem_of_nil. tauto. }
  rewrite result_artifacts_cons.
  destruct r as [| | | |rel|]; cbn [collect_results List.app]; try apply IH.
  pose proof (collect_artifacts_seen (Artifacts rel) seen acc) as Hs.
  destruct (collect_artifacts (Artifacts rel) seen acc) as [seen' acc'].
  cbn [fst] in Hs. rewrite IH, Hs, fmap_app. apply set_eq. intros k.
  rewrite !elem_of_union, !elem_of_list_to_set, elem_of_app. tauto.
Qed.

Lemma collect_results_fresh (rs : list Any) (seen : gset string) (acc : list string) :
  NoDup (artifact_seen_key <$> result_artifacts rs) →
  (∀ a, a ∈ result_artifacts rs → artifact_seen_key a ∉ seen) →
  (collect_results rs seen acc).2 = acc ++ (artifact_line <$> result_artifacts rs).
Proof.
  revert seen acc. induction rs as [|r rs IH]; intros seen acc Hnd Hfresh.
  { simpl. by rewrite app_nil_r. }
  rewrite result_artifacts_cons in *.
  destruct r as [| | | |rel|]; simpl in *; try by apply IH.
  rewrite fmap_app in Hnd. apply NoDup_app in Hnd as (Hnd1 & Hdisj & Hnd2).
  pose proof (collect_artifacts_seen (Artifacts rel) seen acc) as Hs.
  pose proof (collect_artifacts_fresh (Artifacts rel) seen acc Hnd1) as Hacc.
  destruct (collect_artifacts (Artifacts rel) seen acc) as [seen' acc'].
  simpl in Hs, Hacc. rewrite IH; [|done|].
  - rewrite Hacc, fmap_app, <- app_assoc; [done|].
    intros a Ha. apply Hfresh. rewrite elem_of_app. by left.
  - intros a Ha. rewrite Hs, elem_of_union, elem_of_list_to_set.
    intros [Hin|Hin].
    + revert Hin. apply Hfresh. rewrite elem_of_app. by right.
    + apply (Hdisj _ Hin). by apply list_elem_of_fmap_2.
Qed.

Lemma collect_results_app (rs rs' : list Any) (seen : gset string)
    (acc : list string) :
  collect_results (rs ++ rs') seen acc
  = collect_results rs' (collect_results rs seen acc).1 (collect_results rs seen acc).2.
Proof.
  revert seen acc. induction rs as [|r rs IH]; intros seen acc; [done|].
  destruct r as [| | | |rel|]; simpl; try apply IH.
  destruct (collect_artifacts (Artifacts rel) seen acc) as [seen' acc']. apply IH.
Qed.

(** [formatArtifacts] prints an artifact once: results whose artifacts
    were all printed before (same link and package) add nothing to the
    text, so a release listed twice reads like the release listed once. *)
Theorem formatArtifacts_repeats (rs rs' : list Any) :
  rs ≠ [] →
  (∀ a, a ∈ result_artifacts rs' →
        ∃ b, b ∈ result_artifacts rs ∧ artifact_seen_key a = artifact_seen_key b) →
  formatArtifacts (rs ++ rs') = formatArtifacts rs.
Proof.
  intros Hne Hknown. unfold formatArtifacts.
  rewrite !bool_decide_eq_false_2 by (by destruct rs).
  rewrite collect_results_app, collect_results_known; [done|].
  intros a Ha. rewrite collect_results_seen, elem_of_union, elem_of_list_to_set.
  right. destruct (Hknown a Ha) as (b & Hb & ->). by apply list_elem_of_fmap_2.
Qed.

(** Without results [formatArtifacts] says so; with results whose
    artifacts have pairwise different keys [<link>|<package>], the string
    under which the function remembers an artifact, it prints one line
    per artifact of the releases among them, in order, the lines joined
    by a newline.  (Two artifacts that differ in link and package can
    share that key; see [artifact_seen_key_collision].) *)
Theorem formatArtifacts_distinct (rs : list Any) :
  formatArtifacts [] = "No artifacts available."
  ∧ (rs ≠ [] → NoDup (artifact_seen_key <$> result_artifacts rs) →
     formatArtifacts rs
     = Join (artifact_line <$> result_artifacts rs) (String "010" "")).
Proof.
  split; [done|]. intros Hne Hnd. unfold formatArtifacts.
  rewrite bool_decide_eq_false_2 by (by destruct rs).
  rewrite collect_results_fresh; [done|done|]. intros a _. apply not_elem_of_empty.
Qed.

(** [formatChangelog] reads the first result only: the other results do
    not change the text, and a first result that is not a release gives
    the empty text. *)
Lemma formatChangelog_first_only (r : Any) (rs : list Any) :
  formatChangelog (r :: rs) = formatChangelog [r]
  ∧ ((∀ a, r ≠ ASpecificApp a) → formatChangelog (r :: rs) = "").
Proof.
  split; [by destruct r|]. intros Hr. destruct r; try done. by destruct (Hr a).
Qed.

End notification_text.

Lemma deleteEntity_responses_witness :
  let O := λ s, Ok (mkObjectID s) in
  let c := mkRequest {[ "id" := "c1" ]} None (Err "no form") in
  let w := scenario.world scenario.db1 None in
  let w' := deleteEntity mongod.repository O c "channel" w in
  repo_DeleteChannel mongod.repository (mkObjectID "c1") (w_db w)
  = (Err "DimensionInUse", scenario.db1)
  ∧ w' = c_JSON 500 (error_body "failed to delete channel")
           (logrus_Error "DimensionInUse" (set_db scenario.db1 w)).
Proof.
  intros O c w w'.
  assert (repo_DeleteChannel mongod.repository (mkObjectID "c1") (w_db w)
          = (Err "DimensionInUse", scenario.db1)) as Hdel by (vm_compute; reflexivity).
  split; [exact Hdel|].
  destruct (deleteEntity_responses mongod.repository O c "channel" w)
    as (_ & Hvalid & _).
  destruct (Hvalid (mkObjectID "c1") eq_refl) as (Hchannel & _).
  specialize (Hchannel eq_refl). rewrite Hdel in Hchannel. exact Hchannel.
Defined.

(** The key [<link>|<package>] does not tell all artifacts apart. *)
Example artifact_seen_key_collision :
  let a := mkArtifact "a|b" "" "" "c" in
  let b := mkArtifact "a" "" "" "b|c" in
  a ≠ b ∧ artifact_seen_key a = artifact_seen_key b
  ∧ formatArtifacts [ASpecificApp (mkSpecificApp (mkObjectID "") "" "" "" true false [a; b] [])]
    = artifact_line a.
Proof. split; [discriminate|]. split; vm_compute; reflexivity. Qed.

Lemma formatArtifacts_repeats_witness :
  let r := ASpecificApp (scenario.release "01" "0.0.1.137" "nightly" true) in
  formatArtifacts [r; r] = formatArtifacts [r].
Proof.
  intros r. apply (formatArtifacts_repeats [r] [r]); [discriminate|].
  intros a Ha. by exists a.
Defined.

Lemma formatArtifacts_distinct_witness :
  let r := ASpecificApp (scenario.release "01" "0.0.1.137" "nightly" true) in
  formatArtifacts [r] = artifact_line (scenario.dmg "0.0.1.137").
Proof.
  intros r.
  refine (proj2 (formatArtifacts_distinct [r]) _ _); [discriminate|].
  apply (bool_decide_unpack _). vm_compute. exact I.
Defined.

(** ** The dimension deletes and the end of an upload *)

Section dispatch_more.
Variable repo : AppRepository.
Variable O : string → Result ObjectID.

Lemma deleteEntity_call (c : Request) (w : World) (objID : ObjectID)
    (itemType : string) (del : ObjectID → Mongo → Result Any * Mongo) :
  O (Query c "id") = Ok objID →
  (if bool_decide (itemType = "channel") then Some (repo_DeleteChannel repo)
   else if bool_decide (itemType = "platform") then Some (repo_DeletePlatform repo)
   else if bool_decide (itemType = "arch") then Some (repo_DeleteArch repo)
   else None) = Some del →
  w_db (deleteEntity repo O c itemType w) = (del objID (w_db w)).2
  ∧ w_written (deleteEntity repo O c itemType w)
    = w_written w
      ++ [match (del objID (w_db w)).1 with
          | Ok result =>
              (200%Z, {[ "delete" +:+ capitalized itemType +:+ "Result.DeletedCount"
                         := result ]})
          | Err _ => (500%Z, error_body ("failed to delete " +:+ itemType))
          end].
Proof.
  intros Hid Hcall. unfold deleteEntity. rewrite Hid, Hcall.
  by destruct (del objID (w_db w)) as [[result|e] db'].
Qed.

(** Each exported dimension delete calls the repository method of its own
    kind, takes over the store that method returns, and names the count
    in its 200 body after the kind: [deleteChannelResult.DeletedCount],
    [deleteArchResult.DeletedCount], [deletePlatformResult.DeletedCount]. *)
Theorem dimension_deletes_dispatch (c : Request) (w : World) (objID : ObjectID) :
  O (Query c "id") = Ok objID →
  (w_db (DeleteChannel repo O c w) = (repo_DeleteChannel repo objID (w_db w)).2
   ∧ w_written (DeleteChannel repo O c w)
     = w_written w
       ++ [match (repo_DeleteChannel repo objID (w_db w)).1 with
           | Ok result => (200%Z, {[ "deleteChannelResult.DeletedCount" := result ]})
           | Err _ => (500%Z, error_body "failed to delete channel")
           end])
  ∧ (w_db (DeleteArch repo O c w) = (repo_DeleteArch repo objID (w_db w)).2
     ∧ w_written (DeleteArch repo O c w)
       = w_written w
         ++ [match (repo_DeleteArch repo objID (w_db w)).1 with
             | Ok result => (200%Z, {[ "deleteArchResult.DeletedCount" := result ]})
             | Err _ => (500%Z, error_body "failed to delete arch")
             end])
  ∧ (w_db (DeletePlatform repo O c w) = (repo_DeletePlatform repo objID (w_db w)).2
     ∧ w_written (DeletePlatform repo O c w)
       = w_written w
         ++ [match (repo_DeletePlatform repo objID (w_db w)).1 with
             | Ok result => (200%Z, {[ "deletePlatformResult.DeletedCount" := result ]})
             | Err _ => (500%Z, error_body "failed to delete platform")
             end]).
Proof.
  intros Hid. split; [|split].
  - exact (deleteEntity_call c w objID "channel" (repo_DeleteChannel repo) Hid eq_refl).
  - exact (deleteEntity_call c w objID "arch" (repo_DeleteArch repo) Hid eq_refl).
  - exact (deleteEntity_call c w objID "platform" (repo_DeletePlatform repo) Hid eq_refl).
Qed.

End dispatch_more.

Section upload_app_end.
Variable V : Request → Mongo → Result H.
Variable U : H → utils.FileHeader → S3 → Result (string * string) * S3.
Variable G : option Any → bool.
Variable repo : AppRepository.

(** When every file is uploaded and recorded but the first result is not
    a release, [UploadApp] answers 500 "Invalid result type" after the
    fact: the recorded releases and the blobs stay, and the cache has
    been invalidated as for a success. *)
Theorem UploadApp_invalid_result (c : Request) (perf : bool) (w : World) (p : H)
    (form : MultipartForm) (ls es : list string) (w1 : World) (r : Any)
    (rs : list Any) (w2 : World) :
  V c (w_db w) = Ok p → req_form c = Ok form →
  upload_files U p (default [] (File form !! "file")) [] [] w = inr (ls, es, w1) →
  store_links repo p 0 ls es [] w1 = inr (r :: rs, w2) →
  (∀ a, r ≠ ASpecificApp a) →
  let w' := UploadApp V U G repo c perf w in
  w_written w' = w_written w ++ [(500%Z, error_body "Invalid result type")]
  ∧ w_db w' = w_db w2 ∧ w_s3 w' = w_s3 w1
  ∧ w_rdb w' = w_rdb (invalidate_if_published G p perf w2).
Proof.
  intros Hv Hf Hup Hst Hr w'. unfold w'.
  rewrite (UploadApp_reached V U G repo c perf w p form ls es w1 _ w2 Hv Hf Hup Hst).
  pose proof (upload_files_inr _ _ _ _ _ _ _ _ _ Hup) as (_ & _ & Hwr1 & _).
  pose proof (store_links_inr _ _ _ _ _ _ _ _ _ Hst) as (Hs3 & _ & Hwr2 & _).
  pose proof (invalidate_if_published_frame G p perf w2) as (Hdb3 & Hs33 & Hwr3).
  cbn zeta.
  destruct r as [| | | |a|]; try (by destruct (Hr a));
    cbn [c_JSON w_written w_db w_s3 w_rdb];
    by rewrite Hwr3, Hwr2, Hwr1, Hdb3, Hs33, Hs3.
Qed.

End upload_app_end.

Lemma dimension_deletes_dispatch_witness :
  let O := λ s, Ok (mkObjectID s) in
  let c := mkRequest {[ "id" := "c2" ]} None (Err "no form") in
  let w := scenario.world scenario.db1 None in
  w_written (DeleteChannel mongod.repository O c w)
  = [(200%Z, {[ "deleteChannelResult.DeletedCount" := AInt 1 ]})]
  ∧ db_channels (w_db (DeleteChannel mongod.repository O c w))
    = [(scenario.oid "c1", "nightly")].
Proof.
  intros O c w.
  destruct (dimension_deletes_dispatch mongod.repository O c w (mkObjectID "c2")
              eq_refl) as ((Hdb & Hwr) & _).
  split.
  - rewrite Hwr. vm_compute. reflexivity.
  - rewrite Hdb. vm_compute. reflexivity.
Defined.

Lemma UploadApp_invalid_result_witness :
  let p : H := {[ "app_name" := AStr "testapp"; "version" := AStr "0.0.1.137" ]} in
  let c := scenario.upload_request p [scenario.license] in
  let w := scenario.world scenario.db0 None in
  let repo := mkRepository (λ _ _ _ db, (Ok (AStr "done"), db))
                mongod.CheckLatestVersion mongod.GetAppByName mongod.Get
                mongod.DeleteApp (mongod.delete_dimension DChannel)
                (mongod.delete_dimension DPlatform) (mongod.delete_dimension DArch) in
  w_written (UploadApp validator.ValidateParams scenario.UploadToS3
               validator.GetBoolParam repo c true w)
  = [(500%Z, error_body "Invalid result type")].
Proof.
  intros p c w repo.
  set (w1 := set_s3 (PutObject "bucket" "testapp/testapp-0.0.1.137"
                       (Some "Apache") scenario.s3_0).2 w).
  destruct (UploadApp_invalid_result validator.ValidateParams scenario.UploadToS3
              validator.GetBoolParam repo c true w p
              (mkForm {[ "file" := [scenario.license] ]})
              ["https://s3.example/testapp/testapp-0.0.1.137"] [""] w1
              (AStr "done") [] w1)
    as (Hwr & _); [vm_compute; reflexivity|reflexivity|vm_compute; reflexivity
                   |reflexivity|discriminate|].
  exact Hwr.
Defined.
